(** * parse_eit: a shallow embedding of the EIT decoder

    The development follows [parse_eit.c] function by function:
    the BCD and Modified-Julian-Date decoders, the character-set
    selector, the JSON escaper, the text decoder with its static
    carry-over buffer, and the descriptor loop of [main].

    Bytes are integers in [0, 255]; the record buffer is a map from
    offsets to bytes; [stdout], the diagnostics written to [stderr],
    the static [bytes_left] of [dump_text] and the buffer form the
    program state, threaded through a small state monad whose results
    distinguish a normal return from [exit] and from a failed
    [assert]. *)

From Stdlib Require Import String Ascii ZArith QArith List Bool Lia.
From Stdlib Require Import DecimalString.
Import ListNotations.

Local Open Scope Z_scope.

(** ** Bytes and the record buffer *)

(** [buf] of [main], addressed by the offset from its first byte.
    Offsets past the bytes read from the file hold whatever the stack
    held before. *)
Definition memory := Z -> Z.

(** Reading a [uint8_t]. *)
Definition load (m : memory) (a : Z) : Z := m a mod 256.

(** Writing the bytes [l] from offset [a] on. *)
Definition store_bytes (m : memory) (a : Z) (l : list Z) : memory :=
  fun i =>
    if (a <=? i) && (i <? a + Z.of_nat (length l))
    then nth (Z.to_nat (i - a)) l 0
    else m i.

(** The [len] bytes from offset [a] on. *)
Definition load_bytes (m : memory) (a : Z) (len : nat) : list Z :=
  map (fun k => load m (a + Z.of_nat k)) (seq 0 len).

(** [size_t] arithmetic wraps modulo 2^64. *)
Definition size_t_wrap (n : Z) : Z := n mod 2 ^ 64.

(** ** Duration and start time *)

Record s_duration := mk_duration { hour : Z; minute : Z; second : Z }.

(** [(b >> 4) * 10 + (b & 0x0F)] *)
Definition bcd_pair (b : Z) : Z := Z.shiftr b 4 * 10 + Z.land b 15.

(** [parse_duration (p, len, s)]: the returned byte count and the
    contents of [*s] after the call. *)
Definition parse_duration (m : memory) (p len : Z) (s : s_duration)
  : Z * s_duration :=
  if len <? 3 then (0, s)
  else (3, {| hour := bcd_pair (load m p);
              minute := bcd_pair (load m (p + 1));
              second := bcd_pair (load m (p + 2)) |}).

Record s_start_time := mk_start_time { Y : Z; D : Z; M : Z; t : s_duration }.

(** Conversion of a [double] to [int] truncates towards zero.  The
    [double] expressions of [parse_start_time] are evaluated here over
    the rationals. *)
Definition int_of_double (q : Q) : Z := Z.quot (Qnum q) (Zpos (Qden q)).

Definition mjd_Ys (MJD : Z) : Z :=
  int_of_double ((inject_Z MJD - 15078.2) / 365.25).

Definition mjd_Ms (MJD Ys : Z) : Z :=
  let tmp := int_of_double (inject_Z Ys * 365.25) in
  int_of_double ((inject_Z MJD - 14956.1 - inject_Z tmp) / 30.6001).

Definition parse_start_time (m : memory) (p len : Z) (s : s_start_time)
  : Z * s_start_time :=
  if len <? 5 then (0, s)
  else
    let MJD := Z.lor (Z.shiftl (load m p) 8) (load m (p + 1)) in
    let Ys := mjd_Ys MJD in
    let Ms := mjd_Ms MJD Ys in
    let tmp1 := int_of_double (inject_Z Ys * 365.25) in
    let tmp2 := int_of_double (inject_Z Ms * 30.6001) in
    let D' := MJD - 14956 - tmp1 - tmp2 in
    let K := if (Ms =? 14) || (Ms =? 15) then 1 else 0 in
    let Y' := Ys + K in
    let M' := Ms - 1 - K * 12 in
    let '(_, t') := parse_duration m (p + 2) (size_t_wrap (len - 2)) (t s) in
    (5, {| Y := Y'; D := D'; M := M'; t := t' |}).

(** ** The fixed header of a record *)

Definition event_id (m : memory) : Z :=
  Z.lor (Z.shiftl (load m 0) 8) (load m 1).

(** [p[0] & 0x03] *)
Definition running_status (b : Z) : Z := Z.land b 3.

(** [(p[0] >> 3) & 0x01] *)
Definition free_CA_mode (b : Z) : Z := Z.land (Z.shiftr b 3) 1.

(** [(p[0] & 0xF0) << 8 | p[1]], truncated to [uint16_t] *)
Definition descriptors_loop_length (b0 b1 : Z) : Z :=
  (Z.lor (Z.shiftl (Z.land b0 240) 8) b1) mod 2 ^ 16.

(** The file contents as a buffer: [fread] into [buf]. *)
Definition fread (m : memory) (content : list Z) (num : Z) : memory :=
  fun i => if (0 <=? i) && (i <? num) then nth (Z.to_nat i) content 0 else m i.


(** ** Program state and outcomes *)

(** The [errno] values [dump_text] tells apart. *)
Inductive errno := EINVAL | EILSEQ | E2BIG | EOTHER (code : Z).

(** The messages written to [stderr], one constructor per [fprintf]. *)
Inductive diag :=
| DiagSelectorTooShort (len : Z)
| DiagIconvOpenFailed
| DiagIconvFailed (e : errno)
| DiagInvalidSequence (index : Z)
| DiagOutputTooSmall
| DiagNewline
| DiagNotImplemented
| DiagUnknownTag (tag len left : Z)
| DiagBufferTooSmall
| DiagOpenFailed (fn : string)
| DiagNoInput.

Record state := mk_state {
  stdout : list Z;
  stderr : list diag;
  bytes_left : option (list Z);   (* the static [bytes_left] of [dump_text] *)
  buf : memory
}.

(** How a call ends: it returns, the process ends in [exit], or an
    [assert] fails.  [OutOfFuel] is the bound of the loop model. *)
Inductive result (A : Type) :=
| Returned (a : A) (s : state)
| Exited (status : Z) (s : state)
| Aborted (s : state)
| OutOfFuel.

Arguments Returned {A} a s.
Arguments Exited {A} status s.
Arguments Aborted {A} s.
Arguments OutOfFuel {A}.

Definition Run (A : Type) : Type := state -> result A.

Definition ret {A} (a : A) : Run A := fun s => Returned a s.

Definition bind {A B} (c : Run A) (k : A -> Run B) : Run B :=
  fun s =>
    match c s with
    | Returned a s' => k a s'
    | Exited n s' => Exited n s'
    | Aborted s' => Aborted s'
    | OutOfFuel => OutOfFuel
    end.

Declare Scope run_scope.
Delimit Scope run_scope with run.
Notation "x <- c ;; k" := (bind c (fun x => k))
  (at level 61, c at next level, right associativity) : run_scope.
Notation "' pat <- c ;; k" := (bind c (fun x => match x with pat => k end))
  (at level 61, pat pattern, c at next level, right associativity) : run_scope.
Notation "c ;; k" := (bind c (fun _ => k))
  (at level 61, right associativity) : run_scope.
Local Open Scope run_scope.

Definition exit {A} (status : Z) : Run A := fun s => Exited status s.

(** [assert (c)] *)
Definition assert (c : bool) : Run unit :=
  fun s => if c then Returned tt s else Aborted s.

Definition out_of_fuel {A} : Run A := fun _ => OutOfFuel.

Definition add_stdout (s : state) (l : list Z) : state :=
  mk_state (stdout s ++ l) (stderr s) (bytes_left s) (buf s).

Definition add_stderr (s : state) (d : diag) : state :=
  mk_state (stdout s) (stderr s ++ [d]) (bytes_left s) (buf s).

Definition put (l : list Z) : Run unit := fun s => Returned tt (add_stdout s l).

Definition eprint (d : diag) : Run unit := fun s => Returned tt (add_stderr s d).

Definition rd (a : Z) : Run Z := fun s => Returned (load (buf s) a) s.

Definition rd_bytes (a : Z) (len : nat) : Run (list Z) :=
  fun s => Returned (load_bytes (buf s) a len) s.

Definition wr_bytes (a : Z) (l : list Z) : Run unit :=
  fun s => Returned tt
    (mk_state (stdout s) (stderr s) (bytes_left s) (store_bytes (buf s) a l)).

Definition get_bytes_left : Run (option (list Z)) :=
  fun s => Returned (bytes_left s) s.

Definition set_bytes_left (b : option (list Z)) : Run unit :=
  fun s => Returned tt (mk_state (stdout s) (stderr s) b (buf s)).

Definition get_buf : Run memory := fun s => Returned (buf s) s.

Definition set_buf (m : memory) : Run unit :=
  fun s => Returned tt (mk_state (stdout s) (stderr s) (bytes_left s) m).

(** ** Formatted output *)

Definition byte_of_ascii (a : ascii) : Z := Z.of_nat (nat_of_ascii a).

Fixpoint bytes_of_string (s : string) : list Z :=
  match s with
  | EmptyString => []
  | String a s' => byte_of_ascii a :: bytes_of_string s'
  end.

(** The text of a C string literal.  The escapes backslash-n and
    backslash-backslash are read as in C; an apostrophe stands for the
    double quote of the literal. *)
Fixpoint lit (s : string) : list Z :=
  match s with
  | EmptyString => []
  | String a s' =>
      let c := byte_of_ascii a in
      if c =? 39 then 34 :: lit s'
      else if c =? 92 then
        match s' with
        | String b s'' =>
            let e := byte_of_ascii b in
            if e =? 110 then 10 :: lit s''
            else if e =? 92 then 92 :: lit s''
            else c :: lit s'
        | EmptyString => [c]
        end
      else c :: lit s'
  end.

Definition puts (s : string) : Run unit := put (lit s).

(** [%i] *)
Definition printf_i (n : Z) : list Z :=
  bytes_of_string (NilZero.string_of_int (Z.to_int n)).

Definition pad_left (width : nat) (c : Z) (l : list Z) : list Z :=
  repeat c (width - length l) ++ l.

(** [%02i], for the non-negative values it is used with *)
Definition printf_02i (n : Z) : list Z := pad_left 2 48 (printf_i n).

Definition hex_digit (d : Z) : Z := if d <? 10 then 48 + d else 87 + d.

Fixpoint hex_digits (fuel : nat) (n : Z) (acc : list Z) : list Z :=
  match fuel with
  | O => acc
  | S fuel' =>
      let acc' := hex_digit (n mod 16) :: acc in
      if n / 16 =? 0 then acc' else hex_digits fuel' (n / 16) acc'
  end.

(** [%04x] of an [int] argument, read as [unsigned int] *)
Definition printf_04x (n : Z) : list Z :=
  pad_left 4 48 (hex_digits 8 (n mod 2 ^ 32) []).

(** ** Character-set selector *)

(** The first [switch] of [get_code_table]. *)
Definition code_table_1 (first_byte_value : Z) (code_table : string) : string :=
  match first_byte_value with
  | 1 => "ISO-8859-5"
  | 2 => "ISO-8859-6"
  | 3 => "ISO-8859-7"
  | 4 => "ISO-8859-8"
  | 5 => "ISO-8859-9"
  | 6 => "ISO-8859-10"
  | 7 => "ISO-8859-11"
  | 9 => "ISO-8859-13"
  | 10 => "ISO-8859-14"
  | 11 => "ISO-8859-15"
  | 17 => "ISO-10646"
  | 19 => "GB2312"
  | 21 => "ISO-10646/UTF8"
  | _ => code_table
  end%string.

(** The second [switch], on the third byte after [0x10 0x00]. *)
Definition code_table_3 (third_byte_value : Z) (code_table : string) : string :=
  match third_byte_value with
  | 1 => "ISO-8859-1"
  | 2 => "ISO-8859-2"
  | 3 => "ISO-8859-3"
  | 4 => "ISO-8859-4"
  | 5 => "ISO-8859-5"
  | 6 => "ISO-8859-6"
  | 7 => "ISO-8859-7"
  | 8 => "ISO-8859-8"
  | 9 => "ISO-8859-9"
  | 10 => "ISO-8859-10"
  | 11 => "ISO-8859-11"
  | 13 => "ISO-8859-13"
  | 14 => "ISO-8859-14"
  | 15 => "ISO-8859-15"
  | _ => code_table
  end%string.

(** [get_code_table (p, len, &code_table)]: the returned count and the
    table name. *)
Definition get_code_table (p len : Z) : Run (Z * string) :=
  let ret0 := 0 in
  let code_table := "ISO-8859-1"%string in
  if 1 <=? len then
    first_byte_value <- rd p ;;
    if first_byte_value <? 32 then
      let ret1 := ret0 + 1 in
      let code_table := code_table_1 first_byte_value code_table in
      if first_byte_value =? 16 then
        if 3 <=? len then
          second_byte_value <- rd (p + 1) ;;
          assert (second_byte_value =? 0) ;;
          third_byte_value <- rd (p + 2) ;;
          let ret3 := ret1 + 2 in
          ret (ret3, code_table_3 third_byte_value code_table)
        else
          eprint (DiagSelectorTooShort len) ;;
          exit (-1)
      else ret (ret1, code_table)
    else ret (ret0, code_table)
  else ret (ret0, code_table).

(** ** JSON escaper *)

(** The value of a [char] holding the byte [b]; [char] is signed. *)
Definition char_of_byte (b : Z) : Z := if 128 <=? b then b - 256 else b.

(** The test of the loop body: a double quote (34), a backslash (92),
    or a value from 0 to 0x1f. *)
Definition needs_escape (c : Z) : bool :=
  (c =? 34) || (c =? 92) || ((0 <=? c) && (c <=? 31)).

(** What the loop body writes for the byte [b]. *)
Definition escape_char (b : Z) : list Z :=
  if needs_escape (char_of_byte b)
  then lit "\\u" ++ printf_04x (char_of_byte b)
  else [b].

(** [print_JSON_escaped (p)]: the list holds the bytes from [p] on;
    the loop stops at the first zero byte. *)
Fixpoint print_JSON_escaped (p : list Z) : Run unit :=
  match p with
  | [] => ret tt
  | b :: p' =>
      if b =? 0 then ret tt
      else put (escape_char b) ;; print_JSON_escaped p'
  end.

(** ** Text decoder *)

(** The bytes of a C string: those before the first zero byte. *)
Fixpoint c_string (l : list Z) : list Z :=
  match l with
  | [] => []
  | b :: l' => if b =? 0 then [] else b :: c_string l'
  end.

(** What one call of [iconv] reports: how many input bytes it
    converted ([pin] and [len] move by that much), the bytes written
    to the output buffer, and [errno] when the call returns -1. *)
Record iconv_result := mk_iconv_result {
  ic_consumed : nat;
  ic_output : list Z;
  ic_error : option errno
}.

(** The first argument of [iconv_open]: the letters UTF, the three
    bytes of a minus sign (U+2212), and the digit 8. *)
Definition tocode : list Z := [85; 84; 70; 226; 136; 146; 56].

(** The bytes the escaper writes for a C string. *)
Fixpoint escaped (p : list Z) : list Z :=
  match p with
  | [] => []
  | b :: p' => if b =? 0 then [] else escape_char b ++ escaped p'
  end.

(** The cursor and the buffer [dump_text] converts from, once the
    selector bytes are skipped ([p] is the cursor after them): a
    continuation call with a carry-over moves the cursor back and
    copies the carry-over in front of the field. *)
Definition conversion_buffer (s : state) (p : Z) (append : bool) : Z * memory :=
  match append, bytes_left s with
  | true, Some stale =>
      let p' := p - Z.of_nat (length stale) in
      (p', store_bytes (buf s) p' stale)
  | _, _ => (p, buf s)
  end.

(** The bytes handed to [iconv]: [len] bytes from that cursor. *)
Definition conversion_input (s : state) (p len : Z) (append : bool) : list Z :=
  load_bytes (snd (conversion_buffer s p append))
             (fst (conversion_buffer s p append)) (Z.to_nat len).

(** The state with the carry-over emptied. *)
Definition forget_carry (s : state) : state :=
  mk_state (stdout s) (stderr s) None (buf s).

Section Decoder.

(** The conversion library is outside the program.  [iconv_open]
    tells whether a conversion descriptor is obtained for the target
    and source names; [iconv] converts the input bytes with the given
    room in the output buffer. *)
Variable iconv_open : list Z -> string -> bool.
Variable iconv : list Z -> string -> list Z -> Z -> iconv_result.

(** [dump_text (p, len, append)] *)
Definition dump_text (p len : Z) (append : bool) : Run unit :=
  let outbytesleft := 2048 in
  '(inc, code_table) <- get_code_table p len ;;
  let p := p + inc in
  let len := size_t_wrap (len - inc) in
  if negb (iconv_open tocode code_table) then
    eprint DiagIconvOpenFailed ;;
    exit (-1)
  else
    carry <- get_bytes_left ;;
    p <- match append, carry with
         | true, Some stale =>
             let num_bytes_left := Z.of_nat (length stale) in
             let p := p - num_bytes_left in
             wr_bytes p stale ;;
             ret p
         | _, _ => ret p
         end ;;
    set_bytes_left None ;;
    input <- rd_bytes p (Z.to_nat len) ;;
    let r := iconv tocode code_table input outbytesleft in
    let outbuf := ic_output r ++ [0] in
    match ic_error r with
    | None => print_JSON_escaped outbuf
    | Some EINVAL =>
        set_bytes_left (Some (c_string (skipn (ic_consumed r) input))) ;;
        print_JSON_escaped outbuf
    | Some EILSEQ =>
        eprint (DiagIconvFailed EILSEQ) ;;
        eprint (DiagInvalidSequence (Z.of_nat (ic_consumed r))) ;;
        exit (-1)
    | Some E2BIG =>
        eprint (DiagIconvFailed E2BIG) ;;
        eprint DiagOutputTooSmall ;;
        exit (-1)
    | Some (EOTHER e) =>
        eprint (DiagIconvFailed (EOTHER e)) ;;
        eprint DiagNewline ;;
        print_JSON_escaped outbuf
    end.

(** ** Descriptor loop *)

Definition SHORT_EVENT_DESCRIPTOR : Z := 77.      (* 0x4d *)
Definition EXTENDED_EVENT_DESCRIPTOR : Z := 78.   (* 0x4e *)
Definition COMPONENT_DESCRIPTOR : Z := 80.        (* 0x50 *)

(** Adding a [size_t] to the cursor: addresses wrap modulo 2^64. *)
Definition ptr_add (p n : Z) : Z := (p + n) mod 2 ^ 64.

(** The branch for a short event descriptor; [p] is the cursor after
    the two header bytes. *)
Definition short_event (p shortevent_count : Z) : Run (Z * Z) :=
  let shortevent_count := shortevent_count + 1 in
  puts "  'short_event_descriptor_" ;; put (printf_i shortevent_count) ;;
  puts "':\n  {\n" ;;
  c0 <- rd p ;; c1 <- rd (p + 1) ;; c2 <- rd (p + 2) ;;
  puts "    'iso_639_2_language_code': '" ;; put [c0; c1; c2] ;; puts "',\n" ;;
  let p := p + 3 in
  event_name_length <- rd p ;;
  let p := p + 1 in
  puts "    'event_name': '" ;;
  dump_text p event_name_length false ;;
  puts "',\n" ;;
  let p := p + event_name_length in
  text_length <- rd p ;;
  let p := p + 1 in
  puts "    'text': '" ;;
  dump_text p text_length false ;;
  puts "'\n  },\n" ;;
  let p := p + text_length in
  ret (p, shortevent_count).

(** The branch for an extended event descriptor. *)
Definition extended_event (p shortevent_count : Z) : Run (Z * Z) :=
  b <- rd p ;;
  let descriptor_number := Z.shiftr b 4 in
  let last_descriptor_number := Z.land b 15 in
  let p := p + 1 in
  (if descriptor_number =? 0 then
     puts "  'extended_event_descriptor':\n  {\n" ;;
     c0 <- rd p ;; c1 <- rd (p + 1) ;; c2 <- rd (p + 2) ;;
     puts "    'iso_639_2_language_code': '" ;; put [c0; c1; c2] ;;
     puts "',\n" ;;
     puts "    'text': '"
   else ret tt) ;;
  let p := p + 3 in
  length_of_items <- rd p ;;
  let p := p + 1 in
  if 0 <? length_of_items then
    eprint DiagNotImplemented ;;
    exit (-1)
  else
    text_length <- rd p ;;
    let p := p + 1 in
    dump_text p text_length (0 <? descriptor_number) ;;
    (if descriptor_number =? last_descriptor_number
     then puts "'\n  },\n" else ret tt) ;;
    let p := p + text_length in
    ret (p, shortevent_count).

(** The branch for a component descriptor: nothing is printed. *)
Definition component (p descriptor_length shortevent_count : Z) : Run (Z * Z) :=
  let p := p + 6 in
  let len := size_t_wrap (descriptor_length - 6) in
  let p := ptr_add p len in
  ret (p, shortevent_count).

(** The branch for any other tag. *)
Definition unknown_tag (num p descriptor_tag descriptor_length shortevent_count : Z)
  : Run (Z * Z) :=
  let left := num - p in
  if 0 <? left then
    eprint (DiagUnknownTag descriptor_tag descriptor_length left) ;;
    puts "  'empty_structure':\n" ;;
    puts "  {\n" ;;
    puts "    'dummy': 'nix' \n" ;;
    puts "  }\n" ;;
    puts " }\n" ;;
    exit (-1)
  else ret (p, shortevent_count).

(** One pass through the body of the [while] loop, from the cursor
    [p] and the counter [shortevent_count] to their new values. *)
Definition iteration (num p shortevent_count : Z) : Run (Z * Z) :=
  descriptor_tag <- rd p ;;
  descriptor_length <- rd (p + 1) ;;
  let p := p + 2 in
  if descriptor_tag =? SHORT_EVENT_DESCRIPTOR then
    short_event p shortevent_count
  else if descriptor_tag =? EXTENDED_EVENT_DESCRIPTOR then
    extended_event p shortevent_count
  else if descriptor_tag =? COMPONENT_DESCRIPTOR then
    component p descriptor_length shortevent_count
  else
    unknown_tag num p descriptor_tag descriptor_length shortevent_count.

(** [while (p < buf + num)] *)
Fixpoint walk (fuel : nat) (num p shortevent_count : Z) : Run (Z * Z) :=
  if p <? num then
    match fuel with
    | O => out_of_fuel
    | S fuel' =>
        '(p', count') <- iteration num p shortevent_count ;;
        walk fuel' num p' count'
    end
  else ret (p, shortevent_count).

(** ** One file, and [main] *)

Definition BUF_SIZE : Z := 2000.

(** A command-line argument: the name, and the contents of the file
    when [fopen] succeeds. *)
Record input_file := mk_input_file {
  fn : string;
  contents : option (list Z)
}.

(** [st] and [dur] are not initialised; these are the values they
    hold before the parsers write them. *)
Variable st_indeterminate : s_start_time.
Variable dur_indeterminate : s_duration.

(** From [fopen] to the first descriptor: reads the file into [buf],
    decodes and prints the fixed header, and gives the number of bytes
    read and the cursor. *)
Definition begin_record (f : input_file) : Run (Z * Z) :=
  puts " {\n" ;;
  puts "  'filename': '" ;; put (bytes_of_string (fn f)) ;; puts "',\n" ;;
  match contents f with
  | None =>
      eprint (DiagOpenFailed (fn f)) ;;
      exit (-1)
  | Some content =>
      let num := Z.min BUF_SIZE (Z.of_nat (length content)) in
      old <- get_buf ;;
      let m := fread old content num in
      set_buf m ;;
      if num =? BUF_SIZE then
        eprint DiagBufferTooSmall ;;
        exit (-1)
      else
        let p := 0 in
        let event_id := event_id m in
        let p := p + 2 in
        let '(r, st) :=
          parse_start_time m p (size_t_wrap (num - p)) st_indeterminate in
        let p := p + r in
        let '(r, dur) :=
          parse_duration m p (size_t_wrap (num - p)) dur_indeterminate in
        let p := p + r in
        let running_status := running_status (load m p) in
        let free_CA_mode := free_CA_mode (load m p) in
        puts "  'event_id': " ;; put (printf_i event_id) ;; puts ",\n" ;;
        puts "  'start_time': '" ;;
        put (printf_i (Y st)) ;; puts "/" ;; put (printf_i (M st)) ;; puts "/" ;;
        put (printf_i (D st)) ;; puts " " ;;
        put (printf_02i (hour (t st))) ;; puts ":" ;;
        put (printf_02i (minute (t st))) ;; puts ":" ;;
        put (printf_02i (second (t st))) ;; puts "',\n" ;;
        puts "  'duration': '" ;;
        put (printf_02i (hour dur)) ;; puts ":" ;;
        put (printf_02i (minute dur)) ;; puts ":" ;;
        put (printf_02i (second dur)) ;; puts "',\n" ;;
        puts "  'running_status': " ;; put (printf_i running_status) ;; puts ",\n" ;;
        puts "  'free_CA_mode': " ;; put (printf_i free_CA_mode) ;; puts ",\n" ;;
        let p := p + 2 in
        ret (num, p)
  end.

(** The body of the [for] loop over the arguments; [more] is
    [k < argc - 1]. *)
Definition decode_file (more : bool) (f : input_file) (shortevent_count : Z)
  : Run Z :=
  '(num, p) <- begin_record f ;;
  '(_, shortevent_count) <- walk (Z.to_nat num) num p shortevent_count ;;
  puts "  'empty_structure':\n" ;;
  puts "  {\n" ;;
  puts "    'dummy': 'nix' \n" ;;
  puts "  }\n" ;;
  puts " }" ;; puts (if more then "," else EmptyString) ;; puts "\n" ;;
  ret shortevent_count.

Fixpoint decode_files (files : list input_file) (shortevent_count : Z) : Run Z :=
  match files with
  | [] => ret shortevent_count
  | f :: rest =>
      let more := match rest with [] => false | _ => true end in
      count' <- decode_file more f shortevent_count ;;
      decode_files rest count'
  end.

(** [main]: [files] are the arguments after the program name. *)
Definition main (files : list input_file) : Run Z :=
  let shortevent_count := 0 in
  match files with
  | [] =>
      eprint DiagNoInput ;;
      exit (-1)
  | _ =>
      let num_files := Z.of_nat (length files) in
      (if 1 <? num_files then puts "[\n" else ret tt) ;;
      _ <- decode_files files shortevent_count ;;
      (if 1 <? num_files then puts "]\n" else ret tt) ;;
      ret 0
  end.

(** *** What a run met and printed *)

(** The text one call of [dump_text] appends to [stdout] when it
    returns, for the buffer [m] and the carry-over [carry] it starts
    from. *)
Definition text_of (m : memory) (carry : option (list Z)) (p len : Z)
    (append : bool) : list Z :=
  let s := mk_state [] [] carry m in
  match get_code_table p len s with
  | Returned (inc, code_table) _ =>
      let input :=
        conversion_input s (p + inc) (size_t_wrap (len - inc)) append in
      escaped (ic_output (iconv tocode code_table input 2048) ++ [0])
  | _ => []
  end.

(** The tags the loop dispatches on, in order. *)
Fixpoint descriptors_met (fuel : nat) (num p count : Z) (s : state) : list Z :=
  if p <? num then
    match fuel with
    | O => []
    | S fuel' =>
        load (buf s) p ::
        match iteration num p count s with
        | Returned (p', count') s' => descriptors_met fuel' num p' count' s'
        | _ => []
        end
    end
  else [].

Definition count_short_events (tags : list Z) : Z :=
  Z.of_nat (count_occ Z.eq_dec tags SHORT_EVENT_DESCRIPTOR).

(** The number of short event descriptors the loop meets in the
    files of a run. *)
Fixpoint short_events_met (files : list input_file) (count : Z) (s : state) : Z :=
  match files with
  | [] => 0
  | f :: rest =>
      let more := match rest with [] => false | _ => true end in
      match begin_record f s with
      | Returned (num, p) s1 =>
          count_short_events (descriptors_met (Z.to_nat num) num p count s1)
          + match decode_file more f count s with
            | Returned count' s' => short_events_met rest count' s'
            | _ => 0
            end
      | _ => 0
      end
  end.

End Decoder.

(** ** A converter for the examples

    Concrete runs need a conversion library.  This one knows the two
    source encodings the examples use: ISO-8859-1, and UTF-8 under the
    name the selector byte 0x15 maps to.  It reports an incomplete
    sequence at the end of the input as [EINVAL] and leaves it
    unconverted, and an impossible byte as [EILSEQ]. *)

Definition is_continuation (b : Z) : bool := (128 <=? b) && (b <? 192).

(** How many continuation bytes follow the lead byte [b]. *)
Definition utf8_following (b : Z) : option nat :=
  if b <? 128 then Some 0%nat
  else if b <? 194 then None
  else if b <? 224 then Some 1%nat
  else if b <? 240 then Some 2%nat
  else if b <? 245 then Some 3%nat
  else None.

Fixpoint utf8_convert (fuel : nat) (input : list Z) (consumed : nat)
    (out : list Z) : iconv_result :=
  match fuel, input with
  | O, _ | _, [] => mk_iconv_result consumed out None
  | S fuel', b :: rest =>
      match utf8_following b with
      | None => mk_iconv_result consumed out (Some EILSEQ)
      | Some n =>
          let tail := firstn n rest in
          if negb (forallb is_continuation tail)
          then mk_iconv_result consumed out (Some EILSEQ)
          else if (length tail <? n)%nat
          then mk_iconv_result consumed out (Some EINVAL)
          else utf8_convert fuel' (skipn n rest) (consumed + 1 + n)
                 (out ++ b :: tail)
      end
  end.

Definition latin1_convert (input : list Z) : list Z :=
  flat_map (fun b => if b <? 128 then [b] else [192 + b / 64; 128 + b mod 64])
    input.

Definition ref_iconv_open (to : list Z) (from : string) : bool :=
  String.eqb from "ISO-8859-1" || String.eqb from "ISO-10646/UTF8".

Definition ref_iconv (to : list Z) (from : string) (input : list Z)
    (outbytesleft : Z) : iconv_result :=
  let r :=
    if String.eqb from "ISO-10646/UTF8"
    then utf8_convert (length input) input 0 []
    else mk_iconv_result (length input) (latin1_convert input) None in
  if outbytesleft <? Z.of_nat (length (ic_output r))
  then mk_iconv_result 0 [] (Some E2BIG)
  else r.

(** ** Example inputs *)

Definition zero_memory : memory := fun _ => 0.

Definition initial_state : state := mk_state [] [] None zero_memory.

Definition unset_duration : s_duration := mk_duration 0 0 0.
Definition unset_start_time : s_start_time :=
  mk_start_time 0 0 0 unset_duration.

(** The start time of EXAMPLE 1 in the comment of [parse_start_time]. *)
Definition example_start_time : list Z := [192; 121; 18; 69; 0].

(** A fixed header: event 0x1234, the start time above, a duration of
    01:45:30, and the two bytes before the descriptors. *)
Definition example_header : list Z :=
  [18; 52] ++ example_start_time ++ [1; 69; 48] ++ [128; 0].

Definition run_main (files : list input_file) : result Z :=
  main ref_iconv_open ref_iconv unset_start_time unset_duration files
    initial_state.

(** The state [main] is in when the loop starts on a record with the
    given bytes, its output so far left out. *)
Definition record_state (content : list Z) : state :=
  mk_state [] [] None (fread zero_memory content (Z.of_nat (length content))).

(** The first pass of the loop over a record: the cursor is 12 after
    the fixed header. *)
Definition run_iteration (content : list Z) (count : Z) : result (Z * Z) :=
  iteration ref_iconv_open ref_iconv (Z.of_nat (length content)) 12 count
    (record_state content).

Definition run_dump_text (p len : Z) (append : bool) : Run unit :=
  dump_text ref_iconv_open ref_iconv p len append.

Definition run_decode_file (more : bool) (f : input_file) (count : Z)
  : Run Z :=
  decode_file ref_iconv_open ref_iconv unset_start_time unset_duration
    more f count.

Definition eit (name : string) (content : list Z) : input_file :=
  mk_input_file name (Some content).

(** A short event descriptor: language deu, the name Hi, and a text
    of a double quote and a backslash. *)
Definition short_record : list Z :=
  example_header ++ [77; 9; 100; 101; 117; 2; 72; 105; 2; 34; 92].

(** Records with one structural violation each: a name field of the
    single byte 0x10; an extended event with items length 1; a name
    field in UTF-8 holding the byte 0xFF; an unknown tag 0x99 with a
    byte after its header. *)
Definition short_selector_record : list Z :=
  example_header ++ [77; 7; 100; 101; 117; 1; 16; 0].
Definition items_record : list Z :=
  example_header ++ [78; 8; 0; 100; 101; 117; 1; 0; 0; 0].
Definition invalid_sequence_record : list Z :=
  example_header ++ [77; 8; 100; 101; 117; 2; 21; 255; 0].
Definition unknown_tag_record : list Z :=
  example_header ++ [153; 1; 0].

(** A short event descriptor that declares 255 bytes and holds two
    empty texts; an unknown tag that declares 5 bytes at the very end
    of the record; a component descriptor of 7 bytes. *)
Definition overlong_short_event : list Z :=
  example_header ++ [77; 255; 100; 101; 117; 0; 0].
Definition bare_unknown_tag : list Z :=
  example_header ++ [153; 5].
Definition component_record : list Z :=
  example_header ++ [80; 7; 1; 2; 3; 100; 101; 117; 9].

(** An extended event fragment number 1 of 1 laid out as the
    specification has it, without a language code: items length 0,
    text length 1, the text A, and two more bytes. *)
Definition later_fragment : list Z :=
  example_header ++ [78; 4; 17; 0; 1; 65; 0; 0].

(** The text a-umlaut b in UTF-8 (C3 A4 62) behind the selector byte
    0x15: whole in one extended event descriptor, and split inside
    the a-umlaut over fragments 0 and 1, each with its selector. *)
Definition whole_record : list Z :=
  example_header ++ [78; 10; 0; 100; 101; 117; 0; 4; 21; 195; 164; 98].
Definition first_fragment : list Z :=
  example_header ++ [78; 8; 1; 100; 101; 117; 0; 2; 21; 195].
Definition split_record : list Z :=
  first_fragment ++ [78; 9; 17; 100; 101; 117; 0; 3; 21; 164; 98].

(** ** Definitions used to state the properties *)

(** The escaper as the specification words it: a character is mapped
    to itself, except the double quote, the backslash and the control
    characters 0x00..0x1F, which become a backslash, the letter u, two
    zeros and the two hexadecimal digits of the character. *)
Definition spec_escape (b : Z) : list Z :=
  if (b =? 34) || (b =? 92) || ((0 <=? b) && (b <=? 31))
  then [92; 117; 48; 48; hex_digit (b / 16); hex_digit (b mod 16)]
  else [b].

(** Whether the loop body and the specification's rule give the same
    bytes for the character [n]. *)
Definition escape_agrees (n : nat) : bool :=
  if list_eq_dec Z.eq_dec (escape_char (Z.of_nat n)) (spec_escape (Z.of_nat n))
  then true else false.

(** Whether a call returned to its caller. *)
Definition returned {A} (r : result A) : bool :=
  match r with Returned _ _ => true | _ => false end.

(** What [main] prints around the text of the one extended event of
    the record [x.eit]. *)
Definition before_text : list Z :=
  lit " {\n  'filename': 'x.eit',\n  'event_id': 4660,\n"
  ++ lit "  'start_time': '93/10/13 12:45:00',\n  'duration': '01:45:30',\n"
  ++ lit "  'running_status': 0,\n  'free_CA_mode': 0,\n"
  ++ lit "  'extended_event_descriptor':\n  {\n"
  ++ lit "    'iso_639_2_language_code': 'deu',\n    'text': '".

Definition behind_text : list Z :=
  lit "'\n  },\n  'empty_structure':\n  {\n    'dummy': 'nix' \n  }\n }\n".

(** What [main] prints for the files [a.eit] and [b.eit], each
    holding the record [short_record]. *)
Definition two_files_output : list Z :=
  lit "[\n {\n  'filename': 'a.eit',\n  'event_id': 4660,\n"
  ++ lit "  'start_time': '93/10/13 12:45:00',\n  'duration': '01:45:30',\n"
  ++ lit "  'running_status': 0,\n  'free_CA_mode': 0,\n"
  ++ lit "  'short_event_descriptor_1':\n  {\n"
  ++ lit "    'iso_639_2_language_code': 'deu',\n    'event_name': 'Hi',\n"
  ++ lit "    'text': '\\u0022\\u005c'\n  },\n"
  ++ lit "  'empty_structure':\n  {\n    'dummy': 'nix' \n  }\n },\n"
  ++ lit " {\n  'filename': 'b.eit',\n  'event_id': 4660,\n"
  ++ lit "  'start_time': '93/10/13 12:45:00',\n  'duration': '01:45:30',\n"
  ++ lit "  'running_status': 0,\n  'free_CA_mode': 0,\n"
  ++ lit "  'short_event_descriptor_2':\n  {\n"
  ++ lit "    'iso_639_2_language_code': 'deu',\n    'event_name': 'Hi',\n"
  ++ lit "    'text': '\\u0022\\u005c'\n  },\n"
  ++ lit "  'empty_structure':\n  {\n    'dummy': 'nix' \n  }\n }\n]\n".

(** The key a short event descriptor is printed under. *)
Definition short_event_key (n : Z) : list Z :=
  lit "  'short_event_descriptor_" ++ printf_i n ++ lit "':\n  {\n".

(** The lines printed before the text of the first fragment of an
    extended event. *)
Definition extended_event_head (c0 c1 c2 : Z) : list Z :=
  lit "  'extended_event_descriptor':\n  {\n"
  ++ lit "    'iso_639_2_language_code': '" ++ [c0; c1; c2] ++ lit "',\n"
  ++ lit "    'text': '".

(** The closing of a block. *)
Definition block_end : list Z := lit "'\n  },\n".

(** The cursor after an extended event descriptor as the
    specification lays it out: the language code takes 3 bytes in the
    first fragment only, so in a later fragment the items length
    follows the number byte at once. *)
Definition spec_extended_cursor (m : memory) (p : Z) : Z :=
  let descriptor_number := Z.shiftr (load m (p + 2)) 4 in
  let lang := if descriptor_number =? 0 then 3 else 0 in
  let text_length := load m (p + 2 + 1 + lang + 1) in
  p + 2 + 1 + lang + 1 + 1 + text_length.

(** The cursor, the counter and the state a loop body returned. *)
Definition cursor_after (r : result (Z * Z)) : option Z :=
  match r with Returned (p, _) _ => Some p | _ => None end.

Definition count_after (r : result (Z * Z)) : option Z :=
  match r with Returned (_, c) _ => Some c | _ => None end.

(** How the process ended. *)
Definition process_terminated {A} (r : result A) : bool :=
  match r with
  | Exited _ _ | Aborted _ => true
  | Returned _ _ | OutOfFuel => false
  end.

Definition final_state {A} (r : result A) : option state :=
  match r with
  | Returned _ s | Exited _ s | Aborted s => Some s
  | OutOfFuel => None
  end.

Definition state_after {A} (r : result A) : state :=
  match final_state r with Some s => s | None => initial_state end.

Definition final_stdout {A} (r : result A) : list Z :=
  match final_state r with Some s => stdout s | None => [] end.

Definition final_stderr {A} (r : result A) : list diag :=
  match final_state r with Some s => stderr s | None => [] end.

(** ** Definitions for the further properties *)

(** The byte that holds the two decimal digits of [n], as EXAMPLE 3
    in the comment above [parse_duration] codes them: 45 is 0x45. *)
Definition bcd_byte (n : Z) : Z := 16 * (n / 10) + n mod 10.

(** The 16-bit day count [parse_start_time] reads at [p]. *)
Definition MJD_at (m : memory) (p : Z) : Z :=
  Z.lor (Z.shiftl (load m p) 8) (load m (p + 1)).

(** Year, month and day of a start time. *)
Definition date_of (s : s_start_time) : Z * Z * Z := (Y s, M s, D s).

(** Year, month and day as [parse_start_time] computes them from the
    day count, with the truncated quotients written as integer
    divisions. *)
Definition date_of_MJD (MJD : Z) : Z * Z * Z :=
  let Ys := Z.quot (20 * MJD - 301564) 7305 in
  let tmp := Z.quot (1461 * Ys) 4 in
  let Ms := Z.quot (1000 * (10 * (MJD - tmp) - 149561)) 306001 in
  let tmp2 := Z.quot (306001 * Ms) 10000 in
  let K := if (Ms =? 14) || (Ms =? 15) then 1 else 0 in
  (Ys + K, Ms - 1 - K * 12, MJD - 14956 - tmp - tmp2).

(** Calendar order on year, month and day. *)
Definition date_ltb (a b : Z * Z * Z) : bool :=
  let '(y1, m1, d1) := a in
  let '(y2, m2, d2) := b in
  (y1 <? y2) || ((y1 =? y2) && ((m1 <? m2) || ((m1 =? m2) && (d1 <? d2)))).

Definition date_lt (a b : Z * Z * Z) : Prop := date_ltb a b = true.

(** [f] holds for [a], [a + 1], ..., [a + n - 1]. *)
Fixpoint forall_range (f : Z -> bool) (a : Z) (n : nat) : bool :=
  match n with
  | O => true
  | S n' => f a && forall_range f (a + 1) n'
  end.

(** The value of a lower-case hexadecimal digit. *)
Definition hex_value (c : Z) : Z := if c <? 58 then c - 48 else c - 87.

(** Reading escaped text back: a backslash starts a six-character
    escape whose last two characters are the hexadecimal digits of
    the byte; any other byte stands for itself. *)
Fixpoint json_unescape (l : list Z) : list Z :=
  match l with
  | [] => []
  | b :: rest =>
      if b =? 92 then
        match rest with
        | _ :: _ :: _ :: h :: lo :: rest' =>
            (16 * hex_value h + hex_value lo) :: json_unescape rest'
        | _ => [b]
        end
      else b :: json_unescape rest
  end.

(** A byte that may stand in a JSON string as it is: no double quote
    and no control character. *)
Definition string_safe (c : Z) : bool :=
  negb (c =? 34) && (32 <=? c) && (c <? 256).

(** The selector bytes below 0x20, other than 0x10, that the first
    table of [get_code_table] does not list. *)
Definition unmapped_selector (b : Z) : bool :=
  (b =? 0) || (b =? 8) || ((12 <=? b) && (b <=? 15)) || (b =? 18)
  || (b =? 20) || ((22 <=? b) && (b <=? 31)).

(** The carry-over holds no zero byte, and every byte of it is a
    byte. *)
Definition carry_ok (s : state) : Prop :=
  match bytes_left s with
  | Some stale => Forall (fun b => 0 < b < 256) stale
  | None => True
  end.

(** The state a call ends in, if any, has a good carry-over. *)
Definition outcome_ok {A} (r : result A) : Prop :=
  match final_state r with
  | Some s => carry_ok s
  | None => True
  end.

(** A call that keeps the carry-over good. *)
Definition keeps_carry {A} (c : Run A) : Prop :=
  forall s, carry_ok s -> outcome_ok (c s).

(** The cursor after the fixed header of a record of [num] bytes. *)
Definition header_cursor (num : Z) : Z :=
  if (num <? 2) || (10 <=? num) then 12
  else if 7 <=? num then 9
  else if 5 <=? num then 7
  else 4.

(** * Properties *)

(** ** BCD triplets and the start time *)

Lemma load_range (m : memory) (a : Z) : 0 <= load m a < 256.
Proof. unfold load. apply Z.mod_pos_bound. lia. Qed.

(** C7: with at least 3 bytes, [parse_duration] returns 3 and writes
    the three digit pairs [(byte >> 4) * 10 + (byte & 0x0F)] without
    any range check; with fewer than 3 bytes it returns 0 and leaves
    the output structure as it was. *)
Theorem parse_duration_spec (m : memory) (p len : Z) (s : s_duration) :
  (3 <= len ->
   parse_duration m p len s =
     (3, {| hour := Z.shiftr (load m p) 4 * 10 + Z.land (load m p) 15;
            minute := Z.shiftr (load m (p + 1)) 4 * 10 + Z.land (load m (p + 1)) 15;
            second := Z.shiftr (load m (p + 2)) 4 * 10 + Z.land (load m (p + 2)) 15 |}))
  /\ (len < 3 -> parse_duration m p len s = (0, s)).
Proof.
  unfold parse_duration, bcd_pair.
  split; intros Hlen.
  - destruct (Z.ltb_spec len 3) as [Hlt | _]; [lia | reflexivity].
  - destruct (Z.ltb_spec len 3) as [_ | Hge]; [reflexivity | lia].
Qed.

Lemma parse_duration_spec_witness :
  parse_duration (fread zero_memory [153; 89; 1] 3) 0 3 unset_duration
    = (3, mk_duration 99 59 1)
  /\ parse_duration (fread zero_memory [153; 89] 2) 0 2 (mk_duration 7 8 9)
    = (0, mk_duration 7 8 9).
Proof.
  split.
  - apply (proj1 (parse_duration_spec (fread zero_memory [153; 89; 1] 3) 0 3
                    unset_duration)).
    lia.
  - apply (proj2 (parse_duration_spec (fread zero_memory [153; 89] 2) 0 2
                    (mk_duration 7 8 9))).
    lia.
Defined.

(** The four [double] values of the example that are converted to
    [int] lie well inside (93, 94), (33968, 33969), (11, 12) and
    (336, 337): rounding in [double] arithmetic cannot move them
    across an integer, so truncating the exact values gives the
    integers the program computes. *)
Lemma start_time_example_margin :
  let MJD := inject_Z 49273 in
  (93.5 < (MJD - 15078.2) / 365.25 < 93.7)%Q
  /\ (33968.2 < inject_Z 93 * 365.25 < 33968.3)%Q
  /\ (11.3 < (MJD - 14956.1 - inject_Z 33968) / 30.6001 < 11.5)%Q
  /\ (336.5 < inject_Z 11 * 30.6001 < 336.7)%Q.
Proof. vm_compute. repeat split; reflexivity. Qed.

(** C6: on the bytes C0 79 12 45 00, [parse_start_time] yields year
    93 counted from 1900, that is 1993, month 10, day 13, and the time
    of day 12:45:00. *)
Theorem parse_start_time_example (s : s_start_time) :
  let r := parse_start_time (fread zero_memory example_start_time 5) 0 5 s in
  fst r = 5
  /\ 1900 + Y (snd r) = 1993 /\ M (snd r) = 10 /\ D (snd r) = 13
  /\ t (snd r) = mk_duration 12 45 0.
Proof. vm_compute. repeat split; reflexivity. Qed.

Lemma parse_duration_count m p len s :
  fst (parse_duration m p len s) = 0 \/ fst (parse_duration m p len s) = 3.
Proof. unfold parse_duration. destruct (len <? 3); simpl; auto. Qed.

Lemma parse_start_time_count m p len s :
  fst (parse_start_time m p len s) = 0 \/ fst (parse_start_time m p len s) = 5.
Proof.
  unfold parse_start_time. destruct (len <? 5); simpl; auto.
  destruct (parse_duration _ _ _ _). simpl. auto.
Qed.

(** ** Running status *)

(** C9: the program takes the running status as [p[0] & 0x03], two
    bits of the header byte, so the value is always one of 0..3; the
    values 4 (running), 5 (off air) and the two reserved ones named
    in the comment above the assignment are never produced. *)
Theorem running_status_two_bits (b : Z) :
  0 <= running_status b <= 3 /\ running_status b = b mod 4.
Proof.
  unfold running_status.
  assert (H : Z.land b 3 = b mod 4).
  { change 3 with (Z.ones 2). rewrite Z.land_ones by lia. reflexivity. }
  rewrite H.
  pose proof (Z.mod_pos_bound b 4). lia.
Qed.

(** ** The escaper *)

Lemma add_stdout_nil (s : state) : add_stdout s [] = s.
Proof. destruct s. unfold add_stdout. simpl. rewrite app_nil_r. reflexivity. Qed.

Lemma add_stdout_app (s : state) (l1 l2 : list Z) :
  add_stdout (add_stdout s l1) l2 = add_stdout s (l1 ++ l2).
Proof. unfold add_stdout. simpl. rewrite app_assoc. reflexivity. Qed.

(** The loop only appends to [stdout]. *)
Lemma print_JSON_escaped_run (p : list Z) (s : state) :
  print_JSON_escaped p s = Returned tt (add_stdout s (escaped p)).
Proof.
  revert s. induction p as [| b p' IH]; intros s; simpl.
  - unfold ret. now rewrite add_stdout_nil.
  - destruct (b =? 0).
    + unfold ret. now rewrite add_stdout_nil.
    + unfold bind, put. rewrite IH, add_stdout_app. reflexivity.
Qed.

Lemma escaped_c_string (str rest : list Z) :
  Forall (fun b => 0 < b < 256) str ->
  escaped (str ++ 0 :: rest) = flat_map escape_char str.
Proof.
  induction 1 as [| b str' Hb _ IH]; simpl.
  - reflexivity.
  - destruct (Z.eqb_spec b 0) as [-> | _]; [lia |].
    now rewrite IH.
Qed.

Lemma escape_table : forallb escape_agrees (seq 0 256) = true.
Proof. vm_compute. reflexivity. Qed.

(** The loop body and the specification's rule agree on every byte. *)
Lemma escape_char_spec (b : Z) : 0 <= b < 256 -> escape_char b = spec_escape b.
Proof.
  intros Hb.
  pose proof escape_table as Ht.
  rewrite forallb_forall in Ht.
  specialize (Ht (Z.to_nat b)).
  unfold escape_agrees in Ht.
  rewrite Z2Nat.id in Ht by lia.
  destruct (list_eq_dec Z.eq_dec (escape_char b) (spec_escape b)) as [E | _].
  - exact E.
  - assert (Hin : In (Z.to_nat b) (seq 0 256)) by (apply in_seq; lia).
    specialize (Ht Hin). discriminate.
Qed.

(** C8: for a C string [str] (its characters are nonzero bytes, and a
    zero byte ends it), the escaper appends to [stdout], for each
    character in order, the character itself, or its six-character
    escape when it is a double quote, a backslash or a control
    character up to 0x1F.  The output depends on the string alone, and
    nothing but [stdout] changes: no state is kept between calls. *)
Theorem print_JSON_escaped_spec (str rest : list Z) (s : state) :
  Forall (fun b => 0 < b < 256) str ->
  print_JSON_escaped (str ++ 0 :: rest) s =
    Returned tt
      (mk_state (stdout s ++ flat_map spec_escape str)
                (stderr s) (bytes_left s) (buf s)).
Proof.
  intros Hstr.
  rewrite print_JSON_escaped_run, escaped_c_string by assumption.
  unfold add_stdout. do 3 f_equal.
  induction Hstr as [| b str' Hb _ IH]; simpl.
  - reflexivity.
  - rewrite escape_char_spec by lia. now rewrite IH.
Qed.

Lemma print_JSON_escaped_spec_witness :
  print_JSON_escaped ([97; 34; 92; 10; 195; 164] ++ 0 :: [98]) initial_state =
    Returned tt
      (mk_state
         (stdout initial_state ++
          flat_map spec_escape [97; 34; 92; 10; 195; 164])
         (stderr initial_state) (bytes_left initial_state) (buf initial_state)).
Proof.
  apply (print_JSON_escaped_spec [97; 34; 92; 10; 195; 164] [98] initial_state).
  repeat constructor; lia.
Defined.

Example spec_escape_examples :
  flat_map spec_escape [97; 34; 92; 10; 195; 164] =
    [97] ++ lit "\\u0022" ++ lit "\\u005c" ++ lit "\\u000a" ++ [195; 164].
Proof. reflexivity. Qed.

(** ** The monad *)

Lemma bind_Returned {A B} (c : Run A) (k : A -> Run B) s b s' :
  bind c k s = Returned b s' ->
  exists a s1, c s = Returned a s1 /\ k a s1 = Returned b s'.
Proof.
  unfold bind. destruct (c s) as [a s1 | | |]; try discriminate.
  intros H. now exists a, s1.
Qed.

Lemma Returned_pair_inj {A B} (a a' : A) (b b' : B) s s' :
  Returned (a, b) s = Returned (a', b') s' -> a = a' /\ b = b' /\ s = s'.
Proof. intros [= -> -> ->]. auto. Qed.

(** Stepping through a sequence of calls. *)
Lemma bind_put {B} l (k : unit -> Run B) s :
  bind (put l) k s = k tt (add_stdout s l).
Proof. reflexivity. Qed.

Lemma bind_puts {B} str (k : unit -> Run B) s :
  bind (puts str) k s = k tt (add_stdout s (lit str)).
Proof. reflexivity. Qed.

Lemma bind_eprint {B} d (k : unit -> Run B) s :
  bind (eprint d) k s = k tt (add_stderr s d).
Proof. reflexivity. Qed.

Lemma bind_rd {B} a (k : Z -> Run B) s :
  bind (rd a) k s = k (load (buf s) a) s.
Proof. reflexivity. Qed.

Lemma bind_ret {A B} (a : A) (k : A -> Run B) s : bind (ret a) k s = k a s.
Proof. reflexivity. Qed.

Lemma bind_assoc {A B C} (c : Run A) (f : A -> Run B) (k : B -> Run C) s :
  bind (bind c f) k s = bind c (fun a => bind (f a) k) s.
Proof. unfold bind. destruct (c s); reflexivity. Qed.

Lemma run_ret {A} (a : A) s : ret a s = Returned a s.
Proof. reflexivity. Qed.

Lemma run_exit {A} n s : @exit A n s = Exited n s.
Proof. reflexivity. Qed.

Lemma bind_get_buf {B} (k : memory -> Run B) s :
  bind get_buf k s = k (buf s) s.
Proof. reflexivity. Qed.

Lemma bind_set_buf {B} m (k : unit -> Run B) s :
  bind (set_buf m) k s =
    k tt (mk_state (stdout s) (stderr s) (bytes_left s) m).
Proof. reflexivity. Qed.

Lemma buf_add_stdout s l : buf (add_stdout s l) = buf s.
Proof. reflexivity. Qed.

Lemma buf_add_stderr s d : buf (add_stderr s d) = buf s.
Proof. reflexivity. Qed.

Ltac run_step :=
  first [ rewrite bind_assoc | rewrite bind_puts | rewrite bind_put
        | rewrite bind_rd
        | rewrite bind_eprint | rewrite bind_ret | rewrite bind_get_buf
        | rewrite bind_set_buf | rewrite run_ret | rewrite run_exit ];
  cbv beta; rewrite ?buf_add_stdout, ?buf_add_stderr.

Ltac run_step_in H :=
  first [ rewrite bind_assoc in H | rewrite bind_puts in H
        | rewrite bind_put in H | rewrite bind_rd in H
        | rewrite bind_eprint in H | rewrite bind_ret in H
        | rewrite bind_get_buf in H | rewrite bind_set_buf in H
        | rewrite run_ret in H | rewrite run_exit in H ];
  cbv beta in H; rewrite ?buf_add_stdout, ?buf_add_stderr in H.

Ltac run_simpl :=
  cbn [bind ret put puts eprint rd rd_bytes wr_bytes get_bytes_left
       set_bytes_left set_buf exit assert out_of_fuel
       buf stdout stderr bytes_left add_stdout add_stderr forget_carry].


(** ** The selector *)

(** The selector reads the buffer and, unless it stops the process,
    changes nothing; it consumes 0, 1 or 3 bytes, never more than the
    field holds. *)
Lemma get_code_table_Returned p len s inc code_table s' :
  get_code_table p len s = Returned (inc, code_table) s' ->
  s' = s /\ (inc = 0 \/ inc = 1 \/ inc = 3) /\ (0 <= len -> inc <= len).
Proof.
  unfold get_code_table. run_simpl.
  destruct (Z.leb_spec 1 len); run_simpl;
    [| intros [= <- <- <-]; intuition lia].
  destruct (load (buf s) p <? 32); run_simpl;
    [| intros [= <- <- <-]; intuition lia].
  destruct (load (buf s) p =? 16); run_simpl;
    [| intros [= <- <- <-]; intuition lia].
  destruct (Z.leb_spec 3 len); run_simpl; [| discriminate].
  destruct (load (buf s) (p + 1) =? 0); run_simpl; [| discriminate].
  intros [= <- <- <-]. intuition lia.
Qed.

(** The outcome of the selector depends on the buffer alone. *)
Lemma get_code_table_buf p len s1 s2 v :
  buf s1 = buf s2 ->
  get_code_table p len s1 = Returned v s1 ->
  get_code_table p len s2 = Returned v s2.
Proof.
  unfold get_code_table. intros Hb.
  destruct (1 <=? len); run_simpl; rewrite <- ?Hb;
    [| intros [= <-]; reflexivity].
  destruct (load (buf s1) p <? 32); run_simpl; rewrite <- ?Hb;
    [| intros [= <-]; reflexivity].
  destruct (load (buf s1) p =? 16); run_simpl; rewrite <- ?Hb;
    [| intros [= <-]; reflexivity].
  destruct (3 <=? len); run_simpl; rewrite <- ?Hb; [| discriminate].
  destruct (load (buf s1) (p + 1) =? 0); run_simpl; rewrite <- ?Hb;
    [| discriminate].
  intros [= <-]. reflexivity.
Qed.

(** A selector byte 0x10 in a field of 1 or 2 bytes ends the process. *)
Lemma get_code_table_short p len s :
  1 <= len < 3 -> load (buf s) p = 16 ->
  get_code_table p len s = Exited (-1) (add_stderr s (DiagSelectorTooShort len)).
Proof.
  intros Hlen Hb. unfold get_code_table.
  destruct (Z.leb_spec 1 len); [| lia].
  run_step. rewrite Hb. cbn [Z.ltb Z.eqb Z.compare Pos.compare Pos.compare_cont Pos.eqb].
  destruct (Z.leb_spec 3 len); [lia |].
  repeat run_step. reflexivity.
Qed.

Section Decoder_facts.

Variable iconv_open : list Z -> string -> bool.
Variable iconv : list Z -> string -> list Z -> Z -> iconv_result.

(** What [dump_text] does once the selector has returned and the
    conversion descriptor is open. *)
Lemma dump_text_run p len append s inc code_table :
  get_code_table p len s = Returned (inc, code_table) s ->
  iconv_open tocode code_table = true ->
  let cur := fst (conversion_buffer s (p + inc) append) in
  let m := snd (conversion_buffer s (p + inc) append) in
  let input := conversion_input s (p + inc) (size_t_wrap (len - inc)) append in
  let r := iconv tocode code_table input 2048 in
  let text := escaped (ic_output r ++ [0]) in
  dump_text iconv_open iconv p len append s =
    match ic_error r with
    | None =>
        Returned tt (mk_state (stdout s ++ text) (stderr s) None m)
    | Some EINVAL =>
        Returned tt
          (mk_state (stdout s ++ text) (stderr s)
             (Some (c_string (skipn (ic_consumed r) input))) m)
    | Some EILSEQ =>
        Exited (-1)
          (mk_state (stdout s)
             (stderr s ++ [DiagIconvFailed EILSEQ;
                           DiagInvalidSequence (Z.of_nat (ic_consumed r))])
             None m)
    | Some E2BIG =>
        Exited (-1)
          (mk_state (stdout s)
             (stderr s ++ [DiagIconvFailed E2BIG; DiagOutputTooSmall]) None m)
    | Some (EOTHER e) =>
        Returned tt
          (mk_state (stdout s ++ text)
             (stderr s ++ [DiagIconvFailed (EOTHER e); DiagNewline]) None m)
    end.
Proof.
  intros Hsel Hopen. cbv zeta.
  unfold dump_text, conversion_input, conversion_buffer.
  unfold bind at 1. rewrite Hsel. rewrite Hopen. cbn [negb]. run_simpl.
  destruct append; destruct (bytes_left s) as [stale |]; run_simpl;
    cbn [fst snd];
    match goal with
    | |- context [ic_error ?r] => destruct (ic_error r) as [[| | | e] |]
    end;
    run_simpl; rewrite ?print_JSON_escaped_run;
    unfold exit, add_stdout, add_stderr; cbn [stdout stderr bytes_left buf];
    rewrite <- ?app_assoc; reflexivity.
Qed.

(** A call of [dump_text] returns, or ends the process; when it
    returns from a call that is not a continuation, the buffer is as
    before. *)
Lemma dump_text_cases p len append s :
  (exists s', dump_text iconv_open iconv p len append s = Returned tt s'
              /\ (append = false -> buf s' = buf s))
  \/ (exists s', dump_text iconv_open iconv p len append s = Exited (-1) s')
  \/ (exists s', dump_text iconv_open iconv p len append s = Aborted s').
Proof.
  destruct (get_code_table p len s) as [[inc ct] s1 | n s1 | s1 |] eqn:Hsel.
  - destruct (get_code_table_Returned _ _ _ _ _ _ Hsel) as (-> & _).
    destruct (iconv_open tocode ct) eqn:Hopen.
    + rewrite (dump_text_run _ _ append _ _ _ Hsel Hopen).
      destruct (ic_error _) as [[| | | e] |]; eauto.
      all: left; eexists; split; [reflexivity |];
        intros ->; reflexivity.
    + right; left. unfold dump_text, bind at 1. rewrite Hsel, Hopen.
      eexists. reflexivity.
  - right; left. unfold dump_text, bind at 1. rewrite Hsel.
    revert Hsel. unfold get_code_table. run_simpl.
    destruct (1 <=? len); run_simpl; [| discriminate].
    destruct (load (buf s) p <? 32); run_simpl; [| discriminate].
    destruct (load (buf s) p =? 16); run_simpl; [| discriminate].
    destruct (3 <=? len); run_simpl.
    + destruct (load (buf s) (p + 1) =? 0); discriminate.
    + intros [= <- <-]. eexists. reflexivity.
  - right; right. unfold dump_text, bind at 1. rewrite Hsel. eauto.
  - exfalso. revert Hsel. unfold get_code_table. run_simpl.
    destruct (1 <=? len); run_simpl; [| discriminate].
    destruct (load (buf s) p <? 32); run_simpl; [| discriminate].
    destruct (load (buf s) p =? 16); run_simpl; [| discriminate].
    destruct (3 <=? len); run_simpl; [| discriminate].
    destruct (load (buf s) (p + 1) =? 0); discriminate.
Qed.

Lemma dump_text_false_buf p len s s' :
  dump_text iconv_open iconv p len false s = Returned tt s' -> buf s' = buf s.
Proof.
  intros H.
  destruct (dump_text_cases p len false s)
    as [(s1 & E & Hb) | [(s1 & E) | (s1 & E)]]; rewrite E in H;
    try discriminate.
  injection H as <-. now apply Hb.
Qed.

Lemma dump_text_fuel p len append s :
  dump_text iconv_open iconv p len append s <> OutOfFuel.
Proof.
  destruct (dump_text_cases p len append s)
    as [(s1 & E & _) | [(s1 & E) | (s1 & E)]]; rewrite E; discriminate.
Qed.

(** ** One descriptor *)

(** Skipping the rest of a component descriptor lands [dl] bytes
    after its header, also when [dl - 6] wraps around as a [size_t]. *)
Lemma component_cursor (p dl : Z) :
  0 <= p < 2 ^ 33 -> 0 <= dl < 256 ->
  ptr_add (p + 6) (size_t_wrap (dl - 6)) = p + dl.
Proof.
  intros Hp Hdl. unfold ptr_add, size_t_wrap.
  rewrite Zplus_mod_idemp_r.
  replace (p + 6 + (dl - 6)) with (p + dl) by lia.
  apply Z.mod_small. lia.
Qed.

Lemma short_event_Returned p c s p' c' s' :
  short_event iconv_open iconv p c s = Returned (p', c') s' ->
  c' = c + 1
  /\ p' = p + 5 + load (buf s) (p + 3)
            + load (buf s) (p + 4 + load (buf s) (p + 3))
  /\ buf s' = buf s.
Proof.
  unfold short_event. intros H.
  repeat run_step_in H.
  apply bind_Returned in H as ([] & s1 & Hd1 & H).
  apply dump_text_false_buf in Hd1. rewrite ?buf_add_stdout in Hd1.
  repeat run_step_in H.
  apply bind_Returned in H as ([] & s2 & Hd2 & H).
  apply dump_text_false_buf in Hd2. rewrite ?buf_add_stdout in Hd2.
  repeat run_step_in H.
  injection H as <- <- <-.
  split; [reflexivity | split].
  - rewrite Hd1.
    replace (p + 3 + 1 + load (buf s) (p + 3))
      with (p + 4 + load (buf s) (p + 3)) by lia.
    lia.
  - rewrite buf_add_stdout. congruence.
Qed.

Lemma extended_event_Returned p c s p' c' s' :
  extended_event iconv_open iconv p c s = Returned (p', c') s' ->
  c' = c /\ p' = p + 6 + load (buf s) (p + 5) /\ load (buf s) (p + 4) = 0.
Proof.
  unfold extended_event. intros H.
  run_step_in H.
  destruct (Z.shiftr (load (buf s) p) 4 =? 0) in H;
    repeat run_step_in H;
    (destruct (Z.ltb_spec 0 (load (buf s) (p + 1 + 3))) as [Hpos | Hz];
     repeat run_step_in H; [discriminate |]);
    apply bind_Returned in H as ([] & s1 & _ & H);
    destruct (_ =? _) in H; repeat run_step_in H;
    injection H as <- <- _;
    pose proof (load_range (buf s) (p + 1 + 3)) as Hr;
    replace (p + 4) with (p + 1 + 3) by lia;
    replace (p + 5) with (p + 1 + 3 + 1) by lia;
    repeat split; lia.
Qed.

Ltac split_dump_text :=
  unfold bind at 1;
  match goal with
  | |- context [dump_text iconv_open iconv ?a ?b ?c ?d] =>
      let s1 := fresh "s" in
      let E := fresh "E" in
      destruct (dump_text_cases a b c d)
        as [(s1 & E & _) | [(s1 & E) | (s1 & E)]]; rewrite E
  end.

Lemma short_event_fuel p c s :
  short_event iconv_open iconv p c s <> OutOfFuel.
Proof.
  unfold short_event. repeat run_step.
  split_dump_text; try discriminate.
  repeat run_step.
  split_dump_text; discriminate.
Qed.

Lemma extended_event_fuel p c s :
  extended_event iconv_open iconv p c s <> OutOfFuel.
Proof.
  unfold extended_event. run_step.
  destruct (Z.shiftr (load (buf s) p) 4 =? 0); repeat run_step;
    (destruct (0 <? load (buf s) (p + 1 + 3)); repeat run_step;
     [discriminate |]);
    (split_dump_text; try discriminate);
    destruct (_ =? _); discriminate.
Qed.

(** What a returning call of [dump_text] appended to [stdout]. *)
Lemma dump_text_Returned p len append s s' :
  dump_text iconv_open iconv p len append s = Returned tt s' ->
  stdout s' = stdout s ++ text_of iconv (buf s) (bytes_left s) p len append.
Proof.
  intros H.
  destruct (get_code_table p len s) as [[inc ct] s1 | n s1 | s1 |] eqn:Hsel;
    try (unfold dump_text, bind at 1 in H; rewrite Hsel in H; discriminate).
  destruct (get_code_table_Returned _ _ _ _ _ _ Hsel) as (-> & _).
  destruct (iconv_open tocode ct) eqn:Hopen;
    [| unfold dump_text, bind at 1 in H; rewrite Hsel, Hopen in H;
       discriminate].
  rewrite (dump_text_run _ _ append _ _ _ Hsel Hopen) in H.
  unfold text_of.
  rewrite (get_code_table_buf p len s
             (mk_state [] [] (bytes_left s) (buf s)) (inc, ct) eq_refl Hsel).
  change (conversion_input (mk_state [] [] (bytes_left s) (buf s)))
    with (conversion_input s).
  destruct (ic_error _) as [[| | | e] |]; try discriminate;
    injection H as <-; reflexivity.
Qed.

(** The loop body never exhausts the loop bound by itself. *)
Lemma iteration_fuel num p c s :
  iteration iconv_open iconv num p c s <> OutOfFuel.
Proof.
  unfold iteration. repeat run_step.
  destruct (_ =? SHORT_EVENT_DESCRIPTOR); [apply short_event_fuel |].
  destruct (_ =? EXTENDED_EVENT_DESCRIPTOR); [apply extended_event_fuel |].
  destruct (_ =? COMPONENT_DESCRIPTOR); [discriminate |].
  unfold unknown_tag. destruct (0 <? _); discriminate.
Qed.

(** The cursor and the counter after a loop body that returns. *)
Lemma iteration_Returned num p c s p' c' s' :
  0 <= p < 2 ^ 32 ->
  iteration iconv_open iconv num p c s = Returned (p', c') s' ->
  let m := buf s in
  let tag := load m p in
  (tag = SHORT_EVENT_DESCRIPTOR /\ c' = c + 1
     /\ p' = p + 7 + load m (p + 5) + load m (p + 6 + load m (p + 5)))
  \/ (tag = EXTENDED_EVENT_DESCRIPTOR /\ c' = c
     /\ p' = p + 8 + load m (p + 7) /\ load m (p + 6) = 0)
  \/ (tag = COMPONENT_DESCRIPTOR /\ c' = c /\ p' = p + 2 + load m (p + 1))
  \/ (tag <> SHORT_EVENT_DESCRIPTOR /\ tag <> EXTENDED_EVENT_DESCRIPTOR
      /\ tag <> COMPONENT_DESCRIPTOR /\ c' = c /\ p' = p + 2 /\ num <= p + 2).
Proof.
  intros Hp H. cbv zeta.
  unfold iteration in H. repeat run_step_in H.
  destruct (Z.eqb_spec (load (buf s) p) SHORT_EVENT_DESCRIPTOR) as [E1 | N1].
  { left. apply short_event_Returned in H as (-> & -> & _).
    split; [exact E1 | split; [reflexivity |]].
    replace (p + 2 + 3) with (p + 5) by lia.
    replace (p + 2 + 4 + load (buf s) (p + 5))
      with (p + 6 + load (buf s) (p + 5)) by lia.
    lia. }
  destruct (Z.eqb_spec (load (buf s) p) EXTENDED_EVENT_DESCRIPTOR) as [E2 | N2].
  { right; left. apply extended_event_Returned in H as (-> & -> & Hz).
    replace (p + 2 + 5) with (p + 7) by lia.
    replace (p + 2 + 4) with (p + 6) in Hz by lia.
    repeat split; try assumption; lia. }
  destruct (Z.eqb_spec (load (buf s) p) COMPONENT_DESCRIPTOR) as [E3 | N3].
  { right; right; left. unfold component in H. injection H as <- <- _.
    pose proof (load_range (buf s) (p + 1)).
    rewrite component_cursor by lia.
    repeat split; try assumption; lia. }
  right; right; right. unfold unknown_tag in H.
  destruct (Z.ltb_spec 0 (num - (p + 2))); [discriminate |].
  injection H as <- <- _. repeat split; try assumption; lia.
Qed.

Lemma iteration_count num p c s p' c' s' :
  iteration iconv_open iconv num p c s = Returned (p', c') s' ->
  c' = if load (buf s) p =? SHORT_EVENT_DESCRIPTOR then c + 1 else c.
Proof.
  intros H. unfold iteration in H. repeat run_step_in H.
  destruct (load (buf s) p =? SHORT_EVENT_DESCRIPTOR).
  { now apply short_event_Returned in H as (-> & _). }
  destruct (load (buf s) p =? EXTENDED_EVENT_DESCRIPTOR).
  { now apply extended_event_Returned in H as (-> & _). }
  destruct (load (buf s) p =? COMPONENT_DESCRIPTOR).
  { unfold component in H. now injection H as _ <- _. }
  unfold unknown_tag in H.
  destruct (0 <? num - (p + 2)); [discriminate |].
  now injection H as _ <- _.
Qed.

(** ** The loop *)

(** With a bound of [num - p] passes the loop runs to its end: every
    pass that returns moves the cursor by 2 at least. *)
Lemma walk_fuel fuel :
  forall num p c s,
    0 <= p -> num <= 2 ^ 32 -> (Z.to_nat (num - p) <= fuel)%nat ->
    walk iconv_open iconv fuel num p c s <> OutOfFuel.
Proof.
  induction fuel as [| fuel IH]; intros num p c s Hp Hnum Hfuel; simpl.
  - destruct (Z.ltb_spec p num); [lia | discriminate].
  - destruct (Z.ltb_spec p num) as [Hlt |]; [| discriminate].
    unfold bind.
    destruct (iteration iconv_open iconv num p c s)
      as [[p' c'] s' | | |] eqn:Hit; try discriminate.
    + assert (Hadv : p + 2 <= p').
      { apply iteration_Returned in Hit; [| lia]. cbv zeta in Hit.
        pose proof (load_range (buf s) (p + 1)).
        pose proof (load_range (buf s) (p + 5)).
        pose proof (load_range (buf s) (p + 7)).
        pose proof (load_range (buf s) (p + 6 + load (buf s) (p + 5))).
        intuition lia. }
      apply IH; lia.
    + now apply iteration_fuel in Hit.
Qed.

(** The counter after the loop is the counter before it plus the
    number of short event descriptors met. *)
Lemma walk_count fuel :
  forall num p c s p' c' s',
    walk iconv_open iconv fuel num p c s = Returned (p', c') s' ->
    c' = c + count_short_events
               (descriptors_met iconv_open iconv fuel num p c s).
Proof.
  unfold count_short_events.
  induction fuel as [| fuel IH]; intros num p c s p' c' s' H; simpl in *.
  - destruct (p <? num); [discriminate |].
    injection H as _ <- _. simpl. lia.
  - destruct (p <? num); [| injection H as _ <- _; simpl; lia].
    apply bind_Returned in H as ([p1 c1] & s1 & Hit & H).
    rewrite Hit. apply IH in H. apply iteration_count in Hit.
    cbn [count_occ].
    destruct (Z.eq_dec (load (buf s) p) SHORT_EVENT_DESCRIPTOR) as [E | N].
    + rewrite E, Z.eqb_refl in Hit. lia.
    + apply Z.eqb_neq in N. rewrite N in Hit. lia.
Qed.

(** ** A record *)

Variable st0 : s_start_time.
Variable dur0 : s_duration.

(** Opening a record and decoding its header touches neither the
    carry-over nor [stderr]. *)
Lemma begin_record_Returned f s num p s' :
  begin_record st0 dur0 f s = Returned (num, p) s' ->
  0 <= num < BUF_SIZE /\ 4 <= p <= 12
  /\ bytes_left s' = bytes_left s /\ stderr s' = stderr s.
Proof.
  unfold begin_record. intros H. repeat run_step_in H.
  destruct (contents f) as [content |]; repeat run_step_in H;
    [| discriminate].
  destruct (Z.eqb_spec (Z.min BUF_SIZE (Z.of_nat (length content))) BUF_SIZE)
    as [| Hnum]; repeat run_step_in H; [discriminate |].
  match type of H with
  | context [parse_start_time ?m ?a ?l ?x] =>
      pose proof (parse_start_time_count m a l x) as H1;
      destruct (parse_start_time m a l x) as [r1 st]
  end.
  match type of H with
  | context [parse_duration ?m ?a ?l ?x] =>
      pose proof (parse_duration_count m a l x) as H2;
      destruct (parse_duration m a l x) as [r2 dur]
  end.
  repeat run_step_in H. apply Returned_pair_inj in H as (<- & <- & <-).
  cbn [fst] in H1, H2. unfold BUF_SIZE in *.
  repeat split; try reflexivity; lia.
Qed.

Lemma begin_record_fuel f s : begin_record st0 dur0 f s <> OutOfFuel.
Proof.
  unfold begin_record. repeat run_step.
  destruct (contents f) as [content |]; repeat run_step; [| discriminate].
  destruct (_ =? BUF_SIZE); repeat run_step; [discriminate |].
  destruct (parse_start_time _ _ _ _) as [r1 st].
  destruct (parse_duration _ _ _ _) as [r2 dur].
  repeat run_step. discriminate.
Qed.

Lemma decode_file_fuel more f c s :
  decode_file iconv_open iconv st0 dur0 more f c s <> OutOfFuel.
Proof.
  unfold decode_file, bind at 1.
  destruct (begin_record st0 dur0 f s) as [[num p] s1 | | |] eqn:Hb;
    try discriminate; [| now apply begin_record_fuel in Hb].
  apply begin_record_Returned in Hb as (Hnum & Hp & _).
  unfold bind at 1.
  destruct (walk iconv_open iconv (Z.to_nat num) num p c s1)
    as [[p' c'] s2 | | |] eqn:Hw; try discriminate.
  apply walk_fuel in Hw; [easy | lia | unfold BUF_SIZE in Hnum; lia | lia].
Qed.

Lemma decode_files_fuel files :
  forall c s, decode_files iconv_open iconv st0 dur0 files c s <> OutOfFuel.
Proof.
  induction files as [| f rest IH]; intros c s; simpl; [discriminate |].
  unfold bind.
  destruct (decode_file _ _ _ _ _ f c s) as [c1 s1 | | |] eqn:Hf;
    try discriminate; [apply IH | now apply decode_file_fuel in Hf].
Qed.

(** [main] always ends: it returns, or the process ends in [exit] or
    in a failed [assert]; the loop bound of the model is never met. *)
Lemma main_total files s :
  main iconv_open iconv st0 dur0 files s <> OutOfFuel.
Proof.
  unfold main. destruct files as [| f rest]; [discriminate |].
  set (fs := f :: rest).
  destruct (1 <? Z.of_nat (length fs)); repeat run_step;
    unfold bind at 1;
    destruct (decode_files _ _ _ _ fs 0 _) as [c1 s1 | | |] eqn:Hd;
    try discriminate; now apply decode_files_fuel in Hd.
Qed.

(** The counter after the files of a run is the counter before them
    plus the number of short event descriptors met in all of them. *)
Lemma decode_files_count files :
  forall c s c' s',
    decode_files iconv_open iconv st0 dur0 files c s = Returned c' s' ->
    c' = c + short_events_met iconv_open iconv st0 dur0 files c s.
Proof.
  induction files as [| f rest IH]; intros c s c' s' H; simpl in *.
  - injection H as <- _. lia.
  - apply bind_Returned in H as (c1 & s1 & Hf & H).
    rewrite Hf. apply IH in H.
    unfold decode_file in Hf.
    apply bind_Returned in Hf as ([num p] & s0 & Hb & Hf).
    rewrite Hb.
    apply bind_Returned in Hf as ([p1 c2] & s2 & Hw & Hf).
    apply walk_count in Hw.
    repeat run_step_in Hf. injection Hf as <- _. lia.
Qed.


Lemma extended_event_stdout p c s p' c' s' :
  extended_event iconv_open iconv p c s = Returned (p', c') s' ->
  let m := buf s in
  let descriptor_number := Z.shiftr (load m p) 4 in
  let last_descriptor_number := Z.land (load m p) 15 in
  stdout s' =
    stdout s
    ++ (if descriptor_number =? 0
        then extended_event_head (load m (p + 1)) (load m (p + 2))
               (load m (p + 3))
        else [])
    ++ text_of iconv m (bytes_left s) (p + 6) (load m (p + 5))
         (0 <? descriptor_number)
    ++ (if descriptor_number =? last_descriptor_number then block_end else []).
Proof.
  unfold extended_event. intros H. cbv zeta.
  run_step_in H.
  destruct (Z.shiftr (load (buf s) p) 4 =? 0) in *;
    repeat run_step_in H;
    (destruct (0 <? load (buf s) (p + 1 + 3));
     repeat run_step_in H; [discriminate |]);
    apply bind_Returned in H as ([] & s1 & Hd & H);
    apply dump_text_Returned in Hd;
    destruct (_ =? _) in *; repeat run_step_in H;
    apply Returned_pair_inj in H as (_ & _ & <-);
    cbn [stdout add_stdout buf bytes_left] in Hd |- *;
    replace (p + 1 + 3 + 1 + 1) with (p + 6) in Hd by lia;
    replace (p + 1 + 3 + 1) with (p + 5) in Hd by lia;
    replace (p + 1 + 1) with (p + 2) in Hd by lia;
    replace (p + 1 + 2) with (p + 3) in Hd by lia;
    rewrite Hd; unfold extended_event_head, block_end;
    rewrite ?app_nil_r, <- ?app_assoc; reflexivity.
Qed.

Lemma short_event_stdout p c s p' c' s' :
  short_event iconv_open iconv p c s = Returned (p', c') s' ->
  exists rest, stdout s' = stdout s ++ short_event_key (c + 1) ++ rest.
Proof.
  unfold short_event. intros H. repeat run_step_in H.
  apply bind_Returned in H as ([] & s1 & Hd1 & H).
  apply dump_text_Returned in Hd1. repeat run_step_in H.
  apply bind_Returned in H as ([] & s2 & Hd2 & H).
  apply dump_text_Returned in Hd2. repeat run_step_in H.
  apply Returned_pair_inj in H as (_ & _ & <-).
  cbn [stdout add_stdout buf bytes_left] in Hd1, Hd2 |- *.
  rewrite Hd2, Hd1. unfold short_event_key.
  eexists. rewrite <- !app_assoc. reflexivity.
Qed.

(** ** The claims about the descriptor loop *)

(** C3, as the code has it: a pass through the loop body that
    completes moves the cursor by the 2 header bytes at least.  For a
    component descriptor it moves by 2 plus the declared length; for
    a short or an extended event descriptor it moves by the fields
    consumed, 7 + name length + text length and 8 + text length,
    whatever the declared length says; for any other tag the pass
    completes only when nothing follows the header, and the cursor
    moves by 2. *)
Theorem iteration_advance num p c s p' c' s' :
  0 <= p < 2 ^ 32 ->
  iteration iconv_open iconv num p c s = Returned (p', c') s' ->
  let m := buf s in
  let tag := load m p in
  let descriptor_length := load m (p + 1) in
  p + 2 <= p'
  /\ (tag = COMPONENT_DESCRIPTOR -> p' = p + 2 + descriptor_length)
  /\ (tag = SHORT_EVENT_DESCRIPTOR ->
      p' = p + 7 + load m (p + 5) + load m (p + 6 + load m (p + 5)))
  /\ (tag = EXTENDED_EVENT_DESCRIPTOR -> p' = p + 8 + load m (p + 7))
  /\ (tag <> SHORT_EVENT_DESCRIPTOR -> tag <> EXTENDED_EVENT_DESCRIPTOR ->
      tag <> COMPONENT_DESCRIPTOR -> p' = p + 2 /\ num <= p + 2).
Proof.
  intros Hp H. cbv zeta.
  apply iteration_Returned in H; [| exact Hp]. cbv zeta in H.
  pose proof (load_range (buf s) (p + 1)).
  pose proof (load_range (buf s) (p + 5)).
  pose proof (load_range (buf s) (p + 7)).
  pose proof (load_range (buf s) (p + 6 + load (buf s) (p + 5))).
  unfold SHORT_EVENT_DESCRIPTOR, EXTENDED_EVENT_DESCRIPTOR,
    COMPONENT_DESCRIPTOR in *.
  intuition lia.
Qed.

(** C4, as the code has it: for an extended event descriptor the 3
    language-code bytes are printed only when [descriptor_number] is
    0, but they are consumed for every fragment: the items length is
    always the byte at offset 6 of the descriptor and the text length
    the byte at offset 7, so a pass that completes moves the cursor by
    8 + text length whatever the descriptor number is. *)
Theorem extended_event_language_code num p c s p' c' s' :
  load (buf s) p = EXTENDED_EVENT_DESCRIPTOR ->
  iteration iconv_open iconv num p c s = Returned (p', c') s' ->
  let m := buf s in
  let descriptor_number := Z.shiftr (load m (p + 2)) 4 in
  let last_descriptor_number := Z.land (load m (p + 2)) 15 in
  load m (p + 6) = 0
  /\ p' = p + 2 + 1 + 3 + 1 + 1 + load m (p + 7)
  /\ stdout s' =
       stdout s
       ++ (if descriptor_number =? 0
           then extended_event_head (load m (p + 3)) (load m (p + 4))
                  (load m (p + 5))
           else [])
       ++ text_of iconv m (bytes_left s) (p + 8) (load m (p + 7))
            (0 <? descriptor_number)
       ++ (if descriptor_number =? last_descriptor_number
           then block_end else []).
Proof.
  intros Htag H. cbv zeta.
  unfold iteration in H. repeat run_step_in H.
  rewrite Htag in H. cbn [Z.eqb SHORT_EVENT_DESCRIPTOR
    EXTENDED_EVENT_DESCRIPTOR Pos.eqb] in H.
  pose proof (extended_event_Returned _ _ _ _ _ _ H) as (_ & -> & Hz).
  apply extended_event_stdout in H. cbv zeta in H.
  replace (p + 2 + 4) with (p + 6) in Hz by lia.
  replace (p + 2 + 1) with (p + 3) in H by lia.
  replace (p + 2 + 2) with (p + 4) in H by lia.
  replace (p + 2 + 3) with (p + 5) in H by lia.
  replace (p + 2 + 5) with (p + 7) in H |- * by lia.
  replace (p + 2 + 6) with (p + 8) in H by lia.
  repeat split; [exact Hz | lia | exact H].
Qed.

(** C10: the counter is a variable of [main] that lives across the
    files of a run.  A pass through the loop body adds exactly 1 to it
    for a short event descriptor and leaves it alone for any other; a
    short event is printed under the key numbered by the counter
    after the addition; and after any number of files the counter is
    the counter before them plus the number of short event
    descriptors met in all of them: nothing resets it between
    records. *)
Theorem shortevent_count_across_files :
  (forall num p c s p' c' s',
     iteration iconv_open iconv num p c s = Returned (p', c') s' ->
     c' = if load (buf s) p =? SHORT_EVENT_DESCRIPTOR then c + 1 else c)
  /\ (forall num p c s p' c' s',
     load (buf s) p = SHORT_EVENT_DESCRIPTOR ->
     iteration iconv_open iconv num p c s = Returned (p', c') s' ->
     exists rest, stdout s' = stdout s ++ short_event_key (c + 1) ++ rest)
  /\ (forall files c s c' s',
     decode_files iconv_open iconv st0 dur0 files c s = Returned c' s' ->
     c' = c + short_events_met iconv_open iconv st0 dur0 files c s).
Proof.
  split; [| split].
  - exact iteration_count.
  - intros num p c s p' c' s' Htag H.
    unfold iteration in H. repeat run_step_in H.
    rewrite Htag, Z.eqb_refl in H.
    now apply short_event_stdout in H.
  - intros files. apply decode_files_count.
Qed.

(** ** The claims about errors and the carry-over *)

(** C1, as the code has it: at each of the four structural
    violations the program writes a diagnostic to [stderr] and ends
    the process with [exit (-1)]; nothing is returned to a caller.
    The violations are a selector byte 0x10 in a field of fewer than 3
    bytes, a nonzero items length in an extended event descriptor, a
    conversion that fails with [EILSEQ], and an unknown tag with bytes
    left after its header. *)
Theorem structural_violation_exits :
  (forall p len append s,
     1 <= len < 3 -> load (buf s) p = 16 ->
     dump_text iconv_open iconv p len append s =
       Exited (-1) (add_stderr s (DiagSelectorTooShort len)))
  /\ (forall num p c s,
     load (buf s) p = EXTENDED_EVENT_DESCRIPTOR ->
     0 < load (buf s) (p + 6) ->
     exists s',
       iteration iconv_open iconv num p c s = Exited (-1) s'
       /\ stderr s' = stderr s ++ [DiagNotImplemented])
  /\ (forall p len append s inc code_table,
     get_code_table p len s = Returned (inc, code_table) s ->
     iconv_open tocode code_table = true ->
     let input :=
       conversion_input s (p + inc) (size_t_wrap (len - inc)) append in
     let r := iconv tocode code_table input 2048 in
     ic_error r = Some EILSEQ ->
     exists s',
       dump_text iconv_open iconv p len append s = Exited (-1) s'
       /\ stderr s' =
            stderr s ++ [DiagIconvFailed EILSEQ;
                         DiagInvalidSequence (Z.of_nat (ic_consumed r))])
  /\ (forall num p c s,
     let tag := load (buf s) p in
     tag <> SHORT_EVENT_DESCRIPTOR -> tag <> EXTENDED_EVENT_DESCRIPTOR ->
     tag <> COMPONENT_DESCRIPTOR -> p + 2 < num ->
     exists s',
       iteration iconv_open iconv num p c s = Exited (-1) s'
       /\ stderr s' =
            stderr s ++ [DiagUnknownTag tag (load (buf s) (p + 1))
                           (num - (p + 2))]).
Proof.
  repeat apply conj.
  - intros p len append s Hlen Hb.
    unfold dump_text, bind at 1.
    now rewrite (get_code_table_short p len s Hlen Hb).
  - intros num p c s Htag Hitems.
    unfold iteration. repeat run_step. rewrite Htag.
    cbn [Z.eqb SHORT_EVENT_DESCRIPTOR EXTENDED_EVENT_DESCRIPTOR Pos.eqb].
    unfold extended_event. run_step.
    replace (p + 2 + 1 + 3) with (p + 6) by lia.
    destruct (Z.ltb_spec 0 (load (buf s) (p + 6))) as [_ | Hle]; [| lia].
    destruct (Z.shiftr (load (buf s) (p + 2)) 4 =? 0); repeat run_step;
      replace (p + 2 + 1 + 3) with (p + 6) by lia;
      (destruct (Z.ltb_spec 0 (load (buf s) (p + 6))) as [_ | Hle]; [| lia]);
      repeat run_step; eexists; split; reflexivity.
  - intros p len append s inc ct Hsel Hopen. cbv zeta. intros Herr.
    rewrite (dump_text_run _ _ append _ _ _ Hsel Hopen). rewrite Herr.
    eexists; split; reflexivity.
  - intros num p c s. cbv zeta. intros N1 N2 N3 Hleft.
    unfold iteration. repeat run_step.
    apply Z.eqb_neq in N1, N2, N3. rewrite N1, N2, N3.
    unfold unknown_tag.
    destruct (Z.ltb_spec 0 (num - (p + 2))) as [_ | Hle]; [| lia].
    repeat run_step. eexists; split; reflexivity.
Qed.

(** A call that is not a continuation behaves as if the carry-over
    were empty. *)
Lemma dump_text_forgets p len s s' :
  dump_text iconv_open iconv p len false s = Returned tt s' ->
  dump_text iconv_open iconv p len false (forget_carry s) = Returned tt s'.
Proof.
  intros H.
  destruct (get_code_table p len s) as [[inc ct] s1 | n s1 | s1 |] eqn:Hsel;
    try (unfold dump_text, bind at 1 in H; rewrite Hsel in H; discriminate).
  destruct (get_code_table_Returned _ _ _ _ _ _ Hsel) as (-> & _).
  destruct (iconv_open tocode ct) eqn:Hopen;
    [| unfold dump_text, bind at 1 in H; rewrite Hsel, Hopen in H;
       discriminate].
  rewrite (dump_text_run _ _ false _ _ _ Hsel Hopen) in H.
  rewrite (dump_text_run _ _ false _ _ _
             (get_code_table_buf p len s (forget_carry s) (inc, ct)
                eq_refl Hsel) Hopen).
  exact H.
Qed.

(** C5, as the code has it: nothing looks at the carry-over when a
    record begins.  Opening the record and decoding its header leave
    the carry-over and [stderr] as they were; the first text field
    decoded after that which is not a continuation returns exactly
    what it returns from an empty carry-over, so stale bytes are
    dropped without a diagnostic. *)
Theorem stale_carry_at_record_start :
  (forall f s num p s',
     begin_record st0 dur0 f s = Returned (num, p) s' ->
     bytes_left s' = bytes_left s /\ stderr s' = stderr s)
  /\ (forall p len s s',
     dump_text iconv_open iconv p len false s = Returned tt s' ->
     dump_text iconv_open iconv p len false (forget_carry s) = Returned tt s').
Proof.
  split.
  - intros f s num p s' H.
    now apply begin_record_Returned in H as (_ & _ & H1 & H2).
  - intros p len s s'. apply dump_text_forgets.
Qed.

End Decoder_facts.

(** ** The bytes a continuation converts *)

Lemma length_load_bytes m a n : length (load_bytes m a n) = n.
Proof. unfold load_bytes. now rewrite length_map, length_seq. Qed.

Lemma nth_load_bytes m a n i :
  (i < n)%nat -> nth i (load_bytes m a n) 0 = load m (a + Z.of_nat i).
Proof.
  intros Hi. unfold load_bytes.
  rewrite nth_indep with (d' := load m (a + Z.of_nat 0))
    by now rewrite length_map, length_seq.
  etransitivity;
    [apply (map_nth (fun k => load m (a + Z.of_nat k)) (seq 0 n) 0%nat i) |].
  rewrite seq_nth by assumption. reflexivity.
Qed.

(** Reading [n] bytes from where [stale] was stored gives [stale]
    followed by what lay behind it, cut to [n] bytes. *)
Lemma load_store_prefix m a stale n :
  Forall (fun b => 0 <= b < 256) stale ->
  load_bytes (store_bytes m a stale) a n =
    firstn n (stale ++ load_bytes m (a + Z.of_nat (length stale)) n).
Proof.
  intros Hstale.
  apply nth_ext with (d := 0) (d' := 0).
  - rewrite length_load_bytes, length_firstn, length_app, length_load_bytes.
    lia.
  - rewrite length_load_bytes. intros i Hi.
    rewrite nth_load_bytes, nth_firstn by assumption.
    destruct (Nat.ltb_spec i n) as [_ |]; [| lia].
    unfold load at 1, store_bytes.
    destruct (Nat.lt_ge_cases i (length stale)) as [Hlt | Hge].
    + rewrite app_nth1 by assumption.
      destruct (Z.leb_spec a (a + Z.of_nat i)); [| lia].
      destruct (Z.ltb_spec (a + Z.of_nat i) (a + Z.of_nat (length stale)));
        [| lia].
      cbn [andb].
      replace (Z.to_nat (a + Z.of_nat i - a)) with i by lia.
      apply Z.mod_small.
      rewrite Forall_nth in Hstale. now apply Hstale.
    + rewrite app_nth2 by assumption.
      destruct (Z.ltb_spec (a + Z.of_nat i) (a + Z.of_nat (length stale)));
        [lia |].
      rewrite andb_false_r.
      rewrite nth_load_bytes by lia.
      unfold load. f_equal. f_equal. lia.
Qed.

(** In a continuation call the carry-over is put in front of the
    field but the length stays that of the field: the converter gets
    the first [len] bytes of carry-over and field together, and the
    last bytes of the field, as many as the carry-over has, are never
    converted. *)
Lemma continuation_input s p len stale :
  bytes_left s = Some stale ->
  Forall (fun b => 0 <= b < 256) stale ->
  conversion_input s p len true =
    firstn (Z.to_nat len) (stale ++ load_bytes (buf s) p (Z.to_nat len)).
Proof.
  intros Hc Hstale. unfold conversion_input, conversion_buffer.
  rewrite Hc. cbn [fst snd].
  rewrite load_store_prefix by assumption.
  do 3 f_equal. lia.
Qed.

(** * The claims on concrete records *)

(** C1 as stated fails: on a record with any one of the four
    violations [main] does not return; the process ends in [exit]
    after one diagnostic on [stderr]. *)
Lemma structural_violation_counterexample :
  (process_terminated (run_main [eit "a.eit" short_selector_record]) = true
   /\ returned (run_main [eit "a.eit" short_selector_record]) = false
   /\ final_stderr (run_main [eit "a.eit" short_selector_record])
        = [DiagSelectorTooShort 1])
  /\ (process_terminated (run_main [eit "a.eit" items_record]) = true
      /\ final_stderr (run_main [eit "a.eit" items_record])
           = [DiagNotImplemented])
  /\ (process_terminated (run_main [eit "a.eit" invalid_sequence_record]) = true
      /\ final_stderr (run_main [eit "a.eit" invalid_sequence_record])
           = [DiagIconvFailed EILSEQ; DiagInvalidSequence 0])
  /\ (process_terminated (run_main [eit "a.eit" unknown_tag_record]) = true
      /\ final_stderr (run_main [eit "a.eit" unknown_tag_record])
           = [DiagUnknownTag 153 1 1]).
Proof. vm_compute. repeat split; reflexivity. Qed.

Lemma structural_violation_exits_witness :
  dump_text ref_iconv_open ref_iconv 18 1 false
    (record_state short_selector_record)
  = Exited (-1)
      (add_stderr (record_state short_selector_record)
         (DiagSelectorTooShort 1)).
Proof.
  apply (proj1 (structural_violation_exits ref_iconv_open ref_iconv)).
  - lia.
  - reflexivity.
Defined.

(** C3 as stated fails: a short event descriptor that declares 255
    bytes moves the cursor by 7, and an unknown tag that declares 5
    bytes at the end of the record moves it by 2. *)
Lemma declared_length_counterexample :
  (cursor_after (run_iteration overlong_short_event 0) = Some 19
   /\ 19 < 12 + (2 + load (buf (record_state overlong_short_event)) 13))
  /\ (cursor_after (run_iteration bare_unknown_tag 0) = Some 14
      /\ 14 < 12 + (2 + load (buf (record_state bare_unknown_tag)) 13)).
Proof. vm_compute. repeat split; reflexivity. Qed.

Lemma iteration_advance_witness :
  let m := buf (record_state component_record) in
  let tag := load m 12 in
  let descriptor_length := load m (12 + 1) in
  12 + 2 <= 21
  /\ (tag = COMPONENT_DESCRIPTOR -> 21 = 12 + 2 + descriptor_length)
  /\ (tag = SHORT_EVENT_DESCRIPTOR ->
      21 = 12 + 7 + load m (12 + 5) + load m (12 + 6 + load m (12 + 5)))
  /\ (tag = EXTENDED_EVENT_DESCRIPTOR -> 21 = 12 + 8 + load m (12 + 7))
  /\ (tag <> SHORT_EVENT_DESCRIPTOR -> tag <> EXTENDED_EVENT_DESCRIPTOR ->
      tag <> COMPONENT_DESCRIPTOR -> 21 = 12 + 2 /\ 21 <= 12 + 2).
Proof.
  apply (iteration_advance ref_iconv_open ref_iconv 21 12 0
           (record_state component_record) 21 0
           (record_state component_record)).
  - lia.
  - vm_compute. reflexivity.
Defined.

(** C4 as stated fails: on a fragment with descriptor number 1 laid
    out without a language code the specification's cursor ends
    behind the text A, 6 bytes on; the program takes the three bytes
    after the number byte as the language code, finds a text length of
    0 two bytes further, prints no text and ends 8 bytes on. *)
Lemma later_fragment_counterexample :
  Z.shiftr (load (buf (record_state later_fragment)) 14) 4 = 1
  /\ spec_extended_cursor (buf (record_state later_fragment)) 12 = 18
  /\ cursor_after (run_iteration later_fragment 0) = Some 20
  /\ final_stdout (run_iteration later_fragment 0) = block_end.
Proof. vm_compute. repeat split; reflexivity. Qed.

Lemma extended_event_language_code_witness :
  let s := record_state first_fragment in
  let s' := state_after (run_iteration first_fragment 0) in
  let m := buf s in
  let descriptor_number := Z.shiftr (load m (12 + 2)) 4 in
  let last_descriptor_number := Z.land (load m (12 + 2)) 15 in
  load m (12 + 6) = 0
  /\ 22 = 12 + 2 + 1 + 3 + 1 + 1 + load m (12 + 7)
  /\ stdout s' =
       stdout s
       ++ (if descriptor_number =? 0
           then extended_event_head (load m (12 + 3)) (load m (12 + 4))
                  (load m (12 + 5))
           else [])
       ++ text_of ref_iconv m (bytes_left s) (12 + 8) (load m (12 + 7))
            (0 <? descriptor_number)
       ++ (if descriptor_number =? last_descriptor_number
           then block_end else []).
Proof.
  apply (extended_event_language_code ref_iconv_open ref_iconv 22 12 0
           (record_state first_fragment) 22 0
           (state_after (run_iteration first_fragment 0))).
  - reflexivity.
  - vm_compute. reflexivity.
Defined.

(** C5 as stated fails: the record [first_fragment] ends inside an
    a-umlaut and leaves the byte C3 in the carry-over; the next file
    is decoded to its end without any diagnostic, and the byte is
    gone afterwards. *)
Lemma stale_carry_counterexample :
  let first := run_decode_file true (eit "a.eit" first_fragment) 0 initial_state in
  let second := run_decode_file false (eit "b.eit" short_record) 0 (state_after first) in
  bytes_left (state_after first) = Some [195]
  /\ returned second = true
  /\ final_stderr second = []
  /\ bytes_left (state_after second) = None
  /\ returned (run_main [eit "a.eit" first_fragment; eit "b.eit" short_record])
       = true
  /\ final_stderr
       (run_main [eit "a.eit" first_fragment; eit "b.eit" short_record]) = [].
Proof. vm_compute. repeat split; reflexivity. Qed.

Lemma stale_carry_at_record_start_witness :
  let s :=
    state_after (run_decode_file true (eit "a.eit" first_fragment) 0 initial_state) in
  let s' :=
    state_after
      (begin_record unset_start_time unset_duration (eit "b.eit" short_record) s) in
  bytes_left s' = bytes_left s /\ stderr s' = stderr s.
Proof.
  apply (proj1 (stale_carry_at_record_start ref_iconv_open ref_iconv
                  unset_start_time unset_duration)
           (eit "b.eit" short_record)
           (state_after
              (run_decode_file true (eit "a.eit" first_fragment) 0 initial_state))
           23 12).
  vm_compute. reflexivity.
Defined.

(** C2 fails on the code.  The text a-umlaut b, whole in one field,
    is decoded to its three bytes.  Split inside the a-umlaut, the
    first field leaves C3 in the carry-over and prints nothing; the
    continuation puts C3 in front but converts only as many bytes as
    its own field has, so the b at the end is never converted.  The
    same is seen in the output of [main] for the two records. *)
Theorem split_text_loses_last_byte :
  final_stdout (run_dump_text 20 4 false (record_state whole_record))
    = [195; 164; 98]
  /\ final_stdout
       ((run_dump_text 20 2 false ;; run_dump_text 30 3 true)
          (record_state split_record))
     = [195; 164]
  /\ final_stdout (run_main [eit "x.eit" whole_record])
     = before_text ++ [195; 164; 98] ++ behind_text
  /\ final_stdout (run_main [eit "x.eit" split_record])
     = before_text ++ [195; 164] ++ behind_text.
Proof. vm_compute. repeat split; reflexivity. Qed.

Lemma shortevent_count_across_files_witness :
  2 = 0 + short_events_met ref_iconv_open ref_iconv unset_start_time
            unset_duration
            [eit "a.eit" short_record; eit "b.eit" short_record] 0
            initial_state.
Proof.
  apply (proj2 (proj2 (shortevent_count_across_files ref_iconv_open ref_iconv
                         unset_start_time unset_duration))
           [eit "a.eit" short_record; eit "b.eit" short_record] 0 initial_state
           2
           (state_after
              (decode_files ref_iconv_open ref_iconv unset_start_time
                 unset_duration
                 [eit "a.eit" short_record; eit "b.eit" short_record] 0
                 initial_state))).
  vm_compute. reflexivity.
Defined.

(** Two files with one short event each: the second is printed under
    the key numbered 2. *)
Example two_files_keys :
  final_stdout (run_main [eit "a.eit" short_record; eit "b.eit" short_record])
    = two_files_output.
Proof. vm_compute. reflexivity. Qed.

(** A header byte whose three upper bits hold 4, running, is printed
    as running status 0. *)
Example running_status_of_running : running_status 128 = 0.
Proof. reflexivity. Qed.

(** * Further properties *)

(** ** Checking a range of integers *)

Lemma forall_range_spec (f : Z -> bool) (n : nat) :
  forall a, forall_range f a n = true ->
  forall z, a <= z < a + Z.of_nat n -> f z = true.
Proof.
  induction n as [| n IH]; intros a H z Hz; [lia |].
  cbn [forall_range] in H. apply andb_true_iff in H as [Ha Hrest].
  destruct (Z.eq_dec z a) as [-> | Hne]; [exact Ha |].
  apply (IH (a + 1)); [exact Hrest | lia].
Qed.

Lemma forall_between (f : Z -> bool) (a b : Z) :
  forall_range f a (Z.to_nat (b - a)) = true ->
  forall z, a <= z < b -> f z = true.
Proof.
  intros H z Hz. apply (forall_range_spec _ _ _ H). lia.
Qed.

(** ** Durations *)

Lemma bcd_pair_bcd_byte (n : Z) : 0 <= n <= 99 -> bcd_pair (bcd_byte n) = n.
Proof.
  intros Hn.
  assert (H : forall_range (fun k => bcd_pair (bcd_byte k) =? k) 0
                (Z.to_nat (100 - 0)) = true)
    by (vm_compute; reflexivity).
  apply Z.eqb_eq.
  apply (forall_between _ _ _ H). lia.
Qed.

Lemma bcd_pair_range (b : Z) : 0 <= b < 256 -> 0 <= bcd_pair b <= 165.
Proof.
  intros Hb.
  assert (H : forall_range
                (fun k => (0 <=? bcd_pair k) && (bcd_pair k <=? 165)) 0
                (Z.to_nat (256 - 0)) = true)
    by (vm_compute; reflexivity).
  pose proof (forall_between _ _ _ H b ltac:(lia)) as Hk.
  apply andb_true_iff in Hk as [H1 H2]. lia.
Qed.

(** Decoding the BCD bytes of an hour, a minute and a second, each
    from 0 to 99, gives them back. *)
Theorem parse_duration_round_trip (m : memory) (p len : Z) (s : s_duration)
    (h mi se : Z) :
  3 <= len ->
  0 <= h <= 99 -> 0 <= mi <= 99 -> 0 <= se <= 99 ->
  load m p = bcd_byte h ->
  load m (p + 1) = bcd_byte mi ->
  load m (p + 2) = bcd_byte se ->
  parse_duration m p len s = (3, mk_duration h mi se).
Proof.
  intros Hlen Hh Hmi Hse E0 E1 E2. unfold parse_duration.
  destruct (Z.ltb_spec len 3); [lia |].
  rewrite E0, E1, E2, !bcd_pair_bcd_byte by assumption. reflexivity.
Qed.

Lemma parse_duration_round_trip_witness :
  parse_duration (fread zero_memory [1; 69; 48] 3) 0 3 unset_duration
    = (3, mk_duration 1 45 30).
Proof.
  apply (parse_duration_round_trip (fread zero_memory [1; 69; 48] 3) 0 3
           unset_duration 1 45 30); try lia; reflexivity.
Defined.

(** Whatever the three bytes are, the decoded fields lie between 0
    and 165, the value of the byte 0xFF; nothing is rejected. *)
Theorem parse_duration_bounds (m : memory) (p len : Z) (s : s_duration) :
  3 <= len ->
  let d := snd (parse_duration m p len s) in
  0 <= hour d <= 165 /\ 0 <= minute d <= 165 /\ 0 <= second d <= 165.
Proof.
  intros Hlen. unfold parse_duration.
  destruct (Z.ltb_spec len 3); [lia |]. cbn [snd hour minute second].
  repeat split; apply bcd_pair_range; apply load_range.
Qed.

Lemma parse_duration_bounds_witness :
  let d := snd (parse_duration (fread zero_memory [255; 255; 255] 3) 0 3
                  unset_duration) in
  0 <= hour d <= 165 /\ 0 <= minute d <= 165 /\ 0 <= second d <= 165.
Proof.
  apply (parse_duration_bounds (fread zero_memory [255; 255; 255] 3) 0 3
           unset_duration).
  lia.
Defined.

(** ** Start times *)

Lemma int_of_double_quot (q : Q) (a b : Z) :
  0 < b -> (q == a # Z.to_pos b)%Q -> int_of_double q = Z.quot a b.
Proof.
  intros Hb Hq. unfold int_of_double, Qeq in *. cbn [Qnum Qden] in Hq.
  rewrite Z2Pos.id in Hq by assumption.
  rewrite <- (Z.quot_mul_cancel_r (Qnum q) (Zpos (Qden q)) b) by lia.
  rewrite Hq.
  rewrite (Z.mul_comm (Zpos (Qden q)) b).
  rewrite Z.quot_mul_cancel_r by lia. reflexivity.
Qed.

Lemma mjd_Ys_quot (MJD : Z) : mjd_Ys MJD = Z.quot (20 * MJD - 301564) 7305.
Proof.
  unfold mjd_Ys. apply int_of_double_quot; [lia |].
  unfold Qeq. cbn -[Z.mul Z.add Z.sub]. lia.
Qed.

Lemma year_days_quot (Ys : Z) :
  int_of_double (inject_Z Ys * 365.25) = Z.quot (1461 * Ys) 4.
Proof.
  apply int_of_double_quot; [lia |].
  unfold Qeq. cbn -[Z.mul Z.add Z.sub]. lia.
Qed.

Lemma month_days_quot (Ms : Z) :
  int_of_double (inject_Z Ms * 30.6001) = Z.quot (306001 * Ms) 10000.
Proof.
  apply int_of_double_quot; [lia |].
  unfold Qeq. cbn -[Z.mul Z.add Z.sub]. lia.
Qed.

Lemma mjd_Ms_quot (MJD Ys : Z) :
  mjd_Ms MJD Ys =
    Z.quot (1000 * (10 * (MJD - Z.quot (1461 * Ys) 4) - 149561)) 306001.
Proof.
  unfold mjd_Ms. rewrite year_days_quot.
  apply int_of_double_quot; [lia |].
  unfold Qeq. cbn -[Z.mul Z.add Z.sub]. lia.
Qed.

(** The date [parse_start_time] writes is [date_of_MJD] of the day
    count. *)
Lemma parse_start_time_date (m : memory) (p len : Z) (s : s_start_time) :
  5 <= len ->
  date_of (snd (parse_start_time m p len s)) = date_of_MJD (MJD_at m p).
Proof.
  intros Hlen. unfold parse_start_time.
  destruct (Z.ltb_spec len 5); [lia |].
  destruct (parse_duration _ _ _ _) as [r d].
  unfold date_of, date_of_MJD, MJD_at. cbn [snd Y M D].
  rewrite !mjd_Ms_quot, !mjd_Ys_quot, !year_days_quot, !month_days_quot.
  reflexivity.
Qed.

Lemma big_endian_16 (a b : Z) :
  0 <= a < 256 -> 0 <= b < 256 -> Z.lor (Z.shiftl a 8) b = 256 * a + b.
Proof.
  intros Ha Hb.
  assert (H : forall_range
                (fun x => forall_range
                            (fun y => Z.lor (Z.shiftl x 8) y =? 256 * x + y)
                            0 (Z.to_nat (256 - 0))) 0 (Z.to_nat (256 - 0))
              = true)
    by (vm_compute; reflexivity).
  pose proof (forall_between _ _ _ H a ltac:(lia)) as Hx. cbv beta in Hx.
  apply Z.eqb_eq. apply (forall_between _ _ _ Hx). lia.
Qed.

Lemma MJD_at_value (m : memory) (p : Z) :
  MJD_at m p = 256 * load m p + load m (p + 1) /\ 0 <= MJD_at m p < 65536.
Proof.
  unfold MJD_at.
  pose proof (load_range m p). pose proof (load_range m (p + 1)).
  rewrite big_endian_16 by assumption. lia.
Qed.

(** The parts of [date_of_MJD]: the year and the month before the
    shift of January and February, and the days of the years. *)
Lemma date_parts (MJD : Z) :
  15079 <= MJD < 65536 ->
  let Ys := Z.quot (20 * MJD - 301564) 7305 in
  let tmp := Z.quot (1461 * Ys) 4 in
  let Ms := Z.quot (1000 * (10 * (MJD - tmp) - 149561)) 306001 in
  let tmp2 := Z.quot (306001 * Ms) 10000 in
  0 <= Ys <= 138 /\ 4 <= Ms <= 15 /\ 1 <= MJD - 14956 - tmp - tmp2 <= 31
  /\ (Ys = 138 -> Ms <= 5).
Proof.
  intros H. cbv zeta. Z.to_euclidean_division_equations. lia.
Qed.

(** From day count 15079 on none of the two quotients
    [parse_start_time] truncates is an integer, so each lies at least
    1/306001 away from the next integer: rounding in [double]
    arithmetic cannot change what the conversions to [int] give.  The
    two products are exact in [double] arithmetic (a multiple of
    0.25) or lie at least 1/10000 away from an integer. *)
Lemma start_time_quotients_not_integers (MJD : Z) :
  15079 <= MJD < 65536 ->
  let n1 := 20 * MJD - 301564 in
  let tmp := Z.quot (1461 * Z.quot n1 7305) 4 in
  let n2 := 1000 * (10 * (MJD - tmp) - 149561) in
  Z.rem n1 7305 <> 0 /\ Z.rem n2 306001 <> 0.
Proof.
  intros H. cbv zeta. split; Z.to_euclidean_division_equations; lia.
Qed.

Lemma year_part_monotone (a b : Z) :
  a <= b -> Z.quot (20 * a - 301564) 7305 <= Z.quot (20 * b - 301564) 7305.
Proof. intros H. Z.to_euclidean_division_equations. lia. Qed.

Lemma month_part_monotone (a b tmp : Z) :
  a <= b ->
  Z.quot (1000 * (10 * (a - tmp) - 149561)) 306001
  <= Z.quot (1000 * (10 * (b - tmp) - 149561)) 306001.
Proof. intros H. Z.to_euclidean_division_equations. lia. Qed.

Lemma date_of_MJD_increasing (a b : Z) :
  15079 <= a -> a < b -> b < 65536 ->
  date_lt (date_of_MJD a) (date_of_MJD b).
Proof.
  intros Ha Hab Hb.
  pose proof (date_parts a ltac:(lia)) as Pa.
  pose proof (date_parts b ltac:(lia)) as Pb.
  pose proof (year_part_monotone a b ltac:(lia)) as Hy.
  cbv zeta in Pa, Pb.
  unfold date_lt, date_of_MJD, date_ltb.
  set (ya := Z.quot (20 * a - 301564) 7305) in *.
  set (yb := Z.quot (20 * b - 301564) 7305) in *.
  pose proof (month_part_monotone a b (Z.quot (1461 * ya) 4) ltac:(lia)) as Hm.
  set (ta := Z.quot (1461 * ya) 4) in *.
  set (tb := Z.quot (1461 * yb) 4) in *.
  set (ma := Z.quot (1000 * (10 * (a - ta) - 149561)) 306001) in *.
  set (mb := Z.quot (1000 * (10 * (b - tb) - 149561)) 306001) in *.
  set (da := Z.quot (306001 * ma) 10000) in *.
  set (db := Z.quot (306001 * mb) 10000) in *.
  assert (Hsame : ya = yb ->
            ma <= mb /\ (ma = mb -> a - 14956 - ta - da < b - 14956 - tb - db)).
  { intros E. subst ma mb da db ta tb. rewrite <- E in *. split; [exact Hm |].
    intros E2. rewrite <- E2. lia. }
  clearbody ya yb ta tb ma mb da db.
  rewrite !orb_true_iff, !andb_true_iff, !orb_true_iff, !andb_true_iff.
  rewrite !Z.ltb_lt, !Z.eqb_eq.
  destruct (Z.eqb_spec ma 14), (Z.eqb_spec ma 15), (Z.eqb_spec mb 14),
    (Z.eqb_spec mb 15); cbn [orb]; lia.
Qed.

Lemma date_in_range_all (MJD : Z) :
  15079 <= MJD < 65536 ->
  let '(y, m, d) := date_of_MJD MJD in
  0 <= y <= 138 /\ 1 <= m <= 12 /\ 1 <= d <= 31.
Proof.
  intros H. pose proof (date_parts MJD H) as P. cbv zeta in P.
  unfold date_of_MJD.
  set (ys := Z.quot (20 * MJD - 301564) 7305) in *.
  set (ms := Z.quot (1000 * (10 * (MJD - Z.quot (1461 * ys) 4) - 149561))
               306001) in *.
  destruct (Z.eqb_spec ms 14), (Z.eqb_spec ms 15); cbn [orb]; lia.
Qed.

(** From 1 March 1900 on (day count 15079) the decoded date has a
    month from 1 to 12, a day from 1 to 31 and a year, counted from
    1900, from 0 to 138. *)
Theorem parse_start_time_valid_date (m : memory) (p len : Z)
    (s : s_start_time) :
  5 <= len -> 15079 <= MJD_at m p ->
  let r := snd (parse_start_time m p len s) in
  0 <= Y r <= 138 /\ 1 <= M r <= 12 /\ 1 <= D r <= 31.
Proof.
  intros Hlen Hmjd. cbv zeta.
  pose proof (parse_start_time_date m p len s Hlen) as Hd.
  pose proof (MJD_at_value m p) as [_ Hr].
  pose proof (date_in_range_all (MJD_at m p) ltac:(lia)) as Hok.
  rewrite <- Hd in Hok. exact Hok.
Qed.

Lemma parse_start_time_valid_date_witness :
  let r := snd (parse_start_time (fread zero_memory example_start_time 5) 0 5
                  unset_start_time) in
  0 <= Y r <= 138 /\ 1 <= M r <= 12 /\ 1 <= D r <= 31.
Proof.
  apply (parse_start_time_valid_date (fread zero_memory example_start_time 5)
           0 5 unset_start_time).
  - lia.
  - vm_compute. discriminate.
Defined.

(** From 1 March 1900 on a later day count is decoded to a later
    date: the decoding keeps the order of days, and so two different
    day counts never give the same date. *)
Theorem parse_start_time_increasing (m1 m2 : memory) (p1 p2 len1 len2 : Z)
    (s1 s2 : s_start_time) :
  5 <= len1 -> 5 <= len2 ->
  15079 <= MJD_at m1 p1 -> MJD_at m1 p1 < MJD_at m2 p2 ->
  date_lt (date_of (snd (parse_start_time m1 p1 len1 s1)))
          (date_of (snd (parse_start_time m2 p2 len2 s2))).
Proof.
  intros H1 H2 Hlo Hlt.
  rewrite !parse_start_time_date by assumption.
  pose proof (MJD_at_value m2 p2) as [_ Hr].
  apply date_of_MJD_increasing; lia.
Qed.

Lemma parse_start_time_increasing_witness :
  date_lt
    (date_of (snd (parse_start_time (fread zero_memory [192; 121; 0; 0; 0] 5)
                     0 5 unset_start_time)))
    (date_of (snd (parse_start_time (fread zero_memory [192; 122; 0; 0; 0] 5)
                     0 5 unset_start_time))).
Proof.
  apply (parse_start_time_increasing
           (fread zero_memory [192; 121; 0; 0; 0] 5)
           (fread zero_memory [192; 122; 0; 0; 0] 5) 0 0 5 5
           unset_start_time unset_start_time).
  - lia.
  - lia.
  - vm_compute. discriminate.
  - vm_compute. reflexivity.
Defined.

(** With fewer than 5 bytes [parse_start_time] returns 0 and writes
    nothing.  With 5 or more it returns 5, and the time of day is what
    [parse_duration] gives for the three bytes after the day count,
    whatever the structure held before. *)
Theorem parse_start_time_spec (m : memory) (p len : Z) (s : s_start_time) :
  (len < 5 -> parse_start_time m p len s = (0, s))
  /\ (5 <= len < 2 ^ 64 ->
      fst (parse_start_time m p len s) = 5
      /\ forall d0 : s_duration,
           t (snd (parse_start_time m p len s))
           = snd (parse_duration m (p + 2) 3 d0)).
Proof.
  unfold parse_start_time. split; intros Hlen.
  - destruct (Z.ltb_spec len 5); [reflexivity | lia].
  - destruct (Z.ltb_spec len 5); [lia |].
    unfold parse_duration, size_t_wrap.
    rewrite Z.mod_small by lia.
    destruct (Z.ltb_spec (len - 2) 3); [lia |].
    cbn [fst snd t]. split; reflexivity.
Qed.

Lemma parse_start_time_spec_witness :
  parse_start_time (fread zero_memory [192; 121; 18; 69] 4) 0 4
    (mk_start_time 1 2 3 (mk_duration 4 5 6))
    = (0, mk_start_time 1 2 3 (mk_duration 4 5 6))
  /\ fst (parse_start_time (fread zero_memory example_start_time 5) 0 5
            unset_start_time) = 5.
Proof.
  split.
  - apply (proj1 (parse_start_time_spec
                    (fread zero_memory [192; 121; 18; 69] 4) 0 4
                    (mk_start_time 1 2 3 (mk_duration 4 5 6)))).
    lia.
  - apply (proj2 (parse_start_time_spec
                    (fread zero_memory example_start_time 5) 0 5
                    unset_start_time)).
    lia.
Defined.

(** ** The selector, case by case *)

(** When the selector returns it has changed nothing, and the count
    it returns is 0, 1 or 3 and never more than the length of the
    field. *)
Theorem get_code_table_consumed p len s inc code_table s' :
  get_code_table p len s = Returned (inc, code_table) s' ->
  s' = s /\ (inc = 0 \/ inc = 1 \/ inc = 3) /\ (0 <= len -> inc <= len).
Proof. apply get_code_table_Returned. Qed.

Lemma get_code_table_consumed_witness :
  record_state [16; 0; 2; 65] = record_state [16; 0; 2; 65]
  /\ (3 = 0 \/ 3 = 1 \/ 3 = 3) /\ (0 <= 4 -> 3 <= 4).
Proof.
  apply (get_code_table_consumed 0 4 (record_state [16; 0; 2; 65]) 3
           "ISO-8859-2" (record_state [16; 0; 2; 65])).
  vm_compute. reflexivity.
Defined.

(** An empty field, or a first byte of 0x20 or more, selects
    ISO-8859-1 and consumes nothing. *)
Theorem get_code_table_default p len s :
  len < 1 \/ 32 <= load (buf s) p ->
  get_code_table p len s = Returned (0, "ISO-8859-1"%string) s.
Proof.
  intros H. unfold get_code_table.
  destruct (Z.leb_spec 1 len) as [Hlen |]; [| reflexivity].
  run_step.
  destruct (Z.ltb_spec (load (buf s) p) 32); [lia | reflexivity].
Qed.

Lemma get_code_table_default_witness :
  get_code_table 0 0 (record_state [5; 65])
    = Returned (0, "ISO-8859-1"%string) (record_state [5; 65])
  /\ get_code_table 0 2 (record_state [65; 5])
    = Returned (0, "ISO-8859-1"%string) (record_state [65; 5]).
Proof.
  split.
  - apply (get_code_table_default 0 0 (record_state [5; 65])). left. lia.
  - apply (get_code_table_default 0 2 (record_state [65; 5])). right.
    vm_compute. discriminate.
Defined.

(** A first byte below 0x20 other than 0x10 consumes one byte and
    selects by the first table; a byte the table does not list still
    consumes one byte and leaves ISO-8859-1 selected. *)
Theorem get_code_table_one_byte p len s :
  1 <= len -> load (buf s) p < 32 -> load (buf s) p <> 16 ->
  get_code_table p len s
    = Returned (1, code_table_1 (load (buf s) p) "ISO-8859-1") s
  /\ (unmapped_selector (load (buf s) p) = true ->
      get_code_table p len s = Returned (1, "ISO-8859-1"%string) s).
Proof.
  intros Hlen Hlt Hne.
  assert (E : get_code_table p len s
              = Returned (1, code_table_1 (load (buf s) p) "ISO-8859-1") s).
  { unfold get_code_table.
    destruct (Z.leb_spec 1 len); [| lia]. run_step.
    destruct (Z.ltb_spec (load (buf s) p) 32); [| lia].
    destruct (Z.eqb_spec (load (buf s) p) 16); [contradiction |].
    reflexivity. }
  split; [exact E |].
  intros Hun. rewrite E. do 2 f_equal.
  pose proof (load_range (buf s) p) as Hr.
  assert (Hall : forall_range
                   (fun b => negb (unmapped_selector b)
                             || String.eqb (code_table_1 b "ISO-8859-1")
                                  "ISO-8859-1") 0 (Z.to_nat (32 - 0)) = true)
    by (vm_compute; reflexivity).
  pose proof (forall_between _ _ _ Hall (load (buf s) p) ltac:(lia)) as Hb.
  cbv beta in Hb. rewrite Hun in Hb. cbn [negb orb] in Hb.
  now apply String.eqb_eq in Hb.
Qed.

Lemma get_code_table_one_byte_witness :
  get_code_table 0 2 (record_state [5; 65])
    = Returned (1, code_table_1 (load (buf (record_state [5; 65])) 0)
                     "ISO-8859-1") (record_state [5; 65])
  /\ (unmapped_selector (load (buf (record_state [5; 65])) 0) = true ->
      get_code_table 0 2 (record_state [5; 65])
        = Returned (1, "ISO-8859-1"%string) (record_state [5; 65])).
Proof.
  apply (get_code_table_one_byte 0 2 (record_state [5; 65])).
  - lia.
  - vm_compute. reflexivity.
  - vm_compute. discriminate.
Defined.

(** The byte 0x10 in a field of 3 bytes or more: with a zero second
    byte three bytes are consumed and the third byte selects by the
    second table; with a nonzero second byte the [assert] fails. *)
Theorem get_code_table_three_bytes p len s :
  3 <= len -> load (buf s) p = 16 ->
  (load (buf s) (p + 1) = 0 ->
   get_code_table p len s
     = Returned (3, code_table_3 (load (buf s) (p + 2)) "ISO-8859-1") s)
  /\ (load (buf s) (p + 1) <> 0 -> get_code_table p len s = Aborted s).
Proof.
  intros Hlen H0. unfold get_code_table.
  destruct (Z.leb_spec 1 len); [| lia]. run_step. rewrite H0.
  cbn [Z.ltb Z.eqb Z.compare Pos.compare Pos.compare_cont Pos.eqb].
  destruct (Z.leb_spec 3 len); [| lia]. run_step.
  split; intros Hsecond.
  - rewrite Hsecond. reflexivity.
  - apply Z.eqb_neq in Hsecond. rewrite Hsecond. reflexivity.
Qed.

Lemma get_code_table_three_bytes_witness :
  (load (buf (record_state [16; 0; 5; 65])) (0 + 1) = 0 ->
   get_code_table 0 4 (record_state [16; 0; 5; 65])
     = Returned (3, code_table_3 (load (buf (record_state [16; 0; 5; 65]))
                                    (0 + 2)) "ISO-8859-1")
         (record_state [16; 0; 5; 65]))
  /\ (load (buf (record_state [16; 0; 5; 65])) (0 + 1) <> 0 ->
      get_code_table 0 4 (record_state [16; 0; 5; 65])
        = Aborted (record_state [16; 0; 5; 65])).
Proof.
  apply (get_code_table_three_bytes 0 4 (record_state [16; 0; 5; 65])).
  - lia.
  - reflexivity.
Defined.

(** ** What the escaper writes *)

Lemma hex_value_hex_digit (d : Z) : 0 <= d < 16 -> hex_value (hex_digit d) = d.
Proof.
  intros Hd. unfold hex_value, hex_digit.
  destruct (Z.ltb_spec d 10).
  - destruct (Z.ltb_spec (48 + d) 58); lia.
  - destruct (Z.ltb_spec (87 + d) 58); lia.
Qed.

Lemma json_unescape_escape_char (b : Z) (rest : list Z) :
  0 < b < 256 ->
  json_unescape (escape_char b ++ rest) = b :: json_unescape rest.
Proof.
  intros Hb. rewrite escape_char_spec by lia. unfold spec_escape.
  destruct ((b =? 34) || (b =? 92) || ((0 <=? b) && (b <=? 31))) eqn:E.
  - cbn [app json_unescape Z.eqb Pos.eqb].
    assert (Hsmall : b <= 92).
    { rewrite !orb_true_iff, andb_true_iff, !Z.eqb_eq, !Z.leb_le in E. lia. }
    rewrite !hex_value_hex_digit.
    + f_equal. pose proof (Z.div_mod b 16). lia.
    + apply Z.mod_pos_bound. lia.
    + split; [apply Z.div_pos; lia | apply Z.div_lt_upper_bound; lia].
  - cbn [app json_unescape].
    rewrite !orb_false_iff in E. destruct E as [[_ E92] _].
    rewrite E92. reflexivity.
Qed.

Lemma json_unescape_escaped (str : list Z) :
  Forall (fun b => 0 < b < 256) str ->
  json_unescape (flat_map escape_char str) = str.
Proof.
  induction 1 as [| b str' Hb _ IH]; [reflexivity |].
  cbn [flat_map]. rewrite json_unescape_escape_char by assumption.
  now rewrite IH.
Qed.

(** The escaper loses nothing: two C strings that are printed alike
    are the same string. *)
Theorem print_JSON_escaped_injective (str1 str2 : list Z) (s : state) :
  Forall (fun b => 0 < b < 256) str1 ->
  Forall (fun b => 0 < b < 256) str2 ->
  print_JSON_escaped (str1 ++ [0]) s = print_JSON_escaped (str2 ++ [0]) s ->
  str1 = str2.
Proof.
  intros H1 H2 E.
  rewrite !print_JSON_escaped_run, !escaped_c_string in E by assumption.
  injection E as E. apply app_inv_head in E.
  rewrite <- (json_unescape_escaped str1 H1), <- (json_unescape_escaped str2 H2).
  now rewrite E.
Qed.

Lemma print_JSON_escaped_injective_witness : [34; 65] = [34; 65].
Proof.
  apply (print_JSON_escaped_injective [34; 65] [34; 65] initial_state).
  - repeat constructor; lia.
  - repeat constructor; lia.
  - reflexivity.
Defined.

Lemma escape_char_safe (b : Z) :
  0 <= b < 256 -> forallb string_safe (escape_char b) = true.
Proof.
  intros Hb.
  assert (Hall : forall_range (fun k => forallb string_safe (escape_char k)) 0
                   (Z.to_nat (256 - 0)) = true)
    by (vm_compute; reflexivity).
  apply (forall_between _ _ _ Hall). lia.
Qed.

(** Whatever bytes the string holds, what the escaper writes can
    stand inside a JSON string: it holds no double quote and no
    control character, and every byte of it is a byte. *)
Theorem print_JSON_escaped_safe (p : list Z) (s : state) :
  Forall (fun b => 0 <= b < 256) p ->
  exists out,
    print_JSON_escaped p s = Returned tt (add_stdout s out)
    /\ Forall (fun c => c <> 34 /\ 32 <= c < 256) out.
Proof.
  intros Hp. exists (escaped p). split; [apply print_JSON_escaped_run |].
  induction Hp as [| b p' Hb _ IH]; cbn [escaped]; [constructor |].
  destruct (b =? 0); [constructor |].
  apply Forall_app. split; [| exact IH].
  pose proof (escape_char_safe b Hb) as Hs.
  rewrite forallb_forall in Hs. apply Forall_forall. intros c Hc.
  specialize (Hs c Hc). unfold string_safe in Hs.
  rewrite !andb_true_iff, negb_true_iff, Z.eqb_neq, Z.leb_le, Z.ltb_lt in Hs.
  lia.
Qed.

Lemma print_JSON_escaped_safe_witness :
  exists out,
    print_JSON_escaped [34; 10; 92; 200; 0; 34] initial_state
      = Returned tt (add_stdout initial_state out)
    /\ Forall (fun c => c <> 34 /\ 32 <= c < 256) out.
Proof.
  apply (print_JSON_escaped_safe [34; 10; 92; 200; 0; 34] initial_state).
  repeat constructor; lia.
Defined.

(** ** The header fields *)

(** The event id is the 16-bit value of the first two bytes, high
    byte first; the free-CA flag is bit 3 of the header byte, 0 or
    1. *)
Theorem header_fields (m : memory) (b : Z) :
  event_id m = 256 * load m 0 + load m 1
  /\ 0 <= event_id m < 65536
  /\ free_CA_mode b = (b / 8) mod 2
  /\ 0 <= free_CA_mode b <= 1.
Proof.
  unfold event_id, free_CA_mode.
  pose proof (load_range m 0). pose proof (load_range m 1).
  rewrite big_endian_16 by assumption.
  assert (E : Z.land (Z.shiftr b 3) 1 = (b / 8) mod 2).
  { change 1 with (Z.ones 1). rewrite Z.land_ones by lia.
    rewrite Z.shiftr_div_pow2 by lia. reflexivity. }
  rewrite E. pose proof (Z.mod_pos_bound (b / 8) 2). lia.
Qed.

(** ** The text decoder, case by case *)

Lemma Forall_load_bytes m a n : Forall (fun b => 0 <= b < 256) (load_bytes m a n).
Proof.
  unfold load_bytes. apply Forall_forall. intros b Hb.
  apply in_map_iff in Hb as (k & <- & _). apply load_range.
Qed.

Lemma Forall_skipn {A} (P : A -> Prop) (n : nat) (l : list A) :
  Forall P l -> Forall P (skipn n l).
Proof.
  revert l. induction n as [| n IH]; intros l H; [exact H |].
  destruct l as [| a l]; [constructor |].
  cbn [skipn]. apply IH. now inversion H.
Qed.

Lemma c_string_ok (l : list Z) :
  Forall (fun b => 0 <= b < 256) l -> Forall (fun b => 0 < b < 256) (c_string l).
Proof.
  induction 1 as [| b l Hb _ IH]; cbn [c_string]; [constructor |].
  destruct (Z.eqb_spec b 0); constructor; [lia | exact IH].
Qed.

Section Decoder_more.

Variable iconv_open : list Z -> string -> bool.
Variable iconv : list Z -> string -> list Z -> Z -> iconv_result.
Variable st0 : s_start_time.
Variable dur0 : s_duration.

(** When no conversion descriptor is obtained the process ends with
    one diagnostic.  When the conversion fails because the output
    buffer is full the process ends and nothing is printed.  When it
    fails for a reason other than an incomplete or invalid sequence
    or a full buffer, the failure is written to [stderr] but the call
    goes on: it prints what was converted, empties the carry-over and
    returns. *)
Theorem dump_text_failures p len append s inc code_table :
  get_code_table p len s = Returned (inc, code_table) s ->
  (iconv_open tocode code_table = false ->
   dump_text iconv_open iconv p len append s
     = Exited (-1) (add_stderr s DiagIconvOpenFailed))
  /\ (iconv_open tocode code_table = true ->
      let input :=
        conversion_input s (p + inc) (size_t_wrap (len - inc)) append in
      let r := iconv tocode code_table input 2048 in
      (ic_error r = Some E2BIG ->
       exists s',
         dump_text iconv_open iconv p len append s = Exited (-1) s'
         /\ stdout s' = stdout s
         /\ stderr s' = stderr s ++ [DiagIconvFailed E2BIG; DiagOutputTooSmall])
      /\ (forall e, ic_error r = Some (EOTHER e) ->
          exists s',
            dump_text iconv_open iconv p len append s = Returned tt s'
            /\ stdout s' = stdout s ++ escaped (ic_output r ++ [0])
            /\ stderr s' = stderr s ++ [DiagIconvFailed (EOTHER e); DiagNewline]
            /\ bytes_left s' = None)).
Proof.
  intros Hsel. split.
  - intros Hopen. unfold dump_text, bind at 1. rewrite Hsel, Hopen.
    reflexivity.
  - intros Hopen. cbv zeta. split.
    + intros Herr. rewrite (dump_text_run _ _ _ _ append _ _ _ Hsel Hopen).
      rewrite Herr. eexists. repeat split; reflexivity.
    + intros e Herr. rewrite (dump_text_run _ _ _ _ append _ _ _ Hsel Hopen).
      rewrite Herr. eexists. repeat split; reflexivity.
Qed.

(** A conversion that succeeds prints the converted text and leaves
    the carry-over empty.  One that stops at an incomplete sequence
    prints what was converted, writes no diagnostic, and keeps as
    carry-over the bytes not converted, up to the first zero byte
    among them. *)
Theorem dump_text_carry p len append s inc code_table :
  get_code_table p len s = Returned (inc, code_table) s ->
  iconv_open tocode code_table = true ->
  let input := conversion_input s (p + inc) (size_t_wrap (len - inc)) append in
  let r := iconv tocode code_table input 2048 in
  let text := escaped (ic_output r ++ [0]) in
  let m := snd (conversion_buffer s (p + inc) append) in
  (ic_error r = None ->
   dump_text iconv_open iconv p len append s
     = Returned tt (mk_state (stdout s ++ text) (stderr s) None m))
  /\ (ic_error r = Some EINVAL ->
      dump_text iconv_open iconv p len append s
        = Returned tt
            (mk_state (stdout s ++ text) (stderr s)
               (Some (c_string (skipn (ic_consumed r) input))) m)).
Proof.
  intros Hsel Hopen. cbv zeta.
  rewrite (dump_text_run _ _ _ _ append _ _ _ Hsel Hopen).
  split; intros Herr; rewrite Herr; reflexivity.
Qed.

(** ** The carry-over stays a C string *)

Lemma keeps_bind {A B} (c : Run A) (k : A -> Run B) :
  keeps_carry c -> (forall a, keeps_carry (k a)) -> keeps_carry (bind c k).
Proof.
  intros Hc Hk s Hs. unfold bind. specialize (Hc s Hs).
  destruct (c s) as [a s1 | n s1 | s1 |]; try exact Hc.
  apply Hk. exact Hc.
Qed.

Lemma keeps_same_carry {A} (c : Run A) :
  (forall s, match final_state (c s) with
             | Some s' => bytes_left s' = bytes_left s
             | None => True
             end) ->
  keeps_carry c.
Proof.
  intros H s Hs. specialize (H s). unfold outcome_ok.
  destruct (final_state (c s)) as [s' |]; [| exact I].
  unfold carry_ok in *. now rewrite H.
Qed.

Lemma keeps_ret {A} (a : A) : keeps_carry (ret a).
Proof. apply keeps_same_carry. reflexivity. Qed.

Lemma keeps_exit {A} n : keeps_carry (@exit A n).
Proof. apply keeps_same_carry. reflexivity. Qed.

Lemma keeps_put l : keeps_carry (put l).
Proof. apply keeps_same_carry. reflexivity. Qed.

Lemma keeps_puts str : keeps_carry (puts str).
Proof. apply keeps_same_carry. reflexivity. Qed.

Lemma keeps_eprint d : keeps_carry (eprint d).
Proof. apply keeps_same_carry. reflexivity. Qed.

Lemma keeps_rd a : keeps_carry (rd a).
Proof. apply keeps_same_carry. reflexivity. Qed.

Lemma keeps_get_buf : keeps_carry get_buf.
Proof. apply keeps_same_carry. reflexivity. Qed.

Lemma keeps_set_buf m : keeps_carry (set_buf m).
Proof. apply keeps_same_carry. reflexivity. Qed.

Lemma keeps_if {A} (b : bool) (c1 c2 : Run A) :
  keeps_carry c1 -> keeps_carry c2 -> keeps_carry (if b then c1 else c2).
Proof. destruct b; auto. Qed.

Ltac keeps_step :=
  match goal with
  | |- keeps_carry (ret _) => apply keeps_ret
  | |- keeps_carry (exit _) => apply keeps_exit
  | |- keeps_carry (put _) => apply keeps_put
  | |- keeps_carry (puts _) => apply keeps_puts
  | |- keeps_carry (eprint _) => apply keeps_eprint
  | |- keeps_carry (rd _) => apply keeps_rd
  | |- keeps_carry get_buf => apply keeps_get_buf
  | |- keeps_carry (set_buf _) => apply keeps_set_buf
  | |- keeps_carry (bind _ _) => apply keeps_bind; [| intros ?]
  | |- keeps_carry (if _ then _ else _) => apply keeps_if
  end.

Ltac keeps := repeat keeps_step.

Lemma keeps_dump_text p len append :
  keeps_carry (dump_text iconv_open iconv p len append).
Proof.
  intros s Hs. unfold outcome_ok.
  destruct (get_code_table p len s) as [[inc ct] s1 | n s1 | s1 |] eqn:Hsel.
  - destruct (get_code_table_Returned _ _ _ _ _ _ Hsel) as (-> & _).
    destruct (iconv_open tocode ct) eqn:Hopen.
    + rewrite (dump_text_run _ _ _ _ append _ _ _ Hsel Hopen).
      destruct (ic_error _) as [[| | | e] |]; cbn [final_state];
        unfold carry_ok; cbn [bytes_left]; try exact I.
      apply c_string_ok, Forall_skipn. apply Forall_load_bytes.
    + unfold dump_text, bind at 1. rewrite Hsel, Hopen. exact Hs.
  - unfold dump_text, bind at 1. rewrite Hsel. cbn [final_state].
    revert Hsel. unfold get_code_table. run_simpl.
    destruct (1 <=? len); run_simpl; [| discriminate].
    destruct (load (buf s) p <? 32); run_simpl; [| discriminate].
    destruct (load (buf s) p =? 16); run_simpl; [| discriminate].
    destruct (3 <=? len); run_simpl.
    + destruct (load (buf s) (p + 1) =? 0); discriminate.
    + intros [= <- <-]. exact Hs.
  - unfold dump_text, bind at 1. rewrite Hsel. cbn [final_state].
    revert Hsel. unfold get_code_table. run_simpl.
    destruct (1 <=? len); run_simpl; [| discriminate].
    destruct (load (buf s) p <? 32); run_simpl; [| discriminate].
    destruct (load (buf s) p =? 16); run_simpl; [| discriminate].
    destruct (3 <=? len); run_simpl; [| discriminate].
    destruct (load (buf s) (p + 1) =? 0); [discriminate |].
    intros [= <-]. exact Hs.
  - unfold dump_text, bind at 1. rewrite Hsel. exact I.
Qed.

Lemma keeps_iteration num p c : keeps_carry (iteration iconv_open iconv num p c).
Proof.
  unfold iteration, short_event, extended_event, component, unknown_tag.
  repeat first [apply keeps_dump_text | keeps_step].
Qed.

Lemma keeps_walk fuel :
  forall num p c, keeps_carry (walk iconv_open iconv fuel num p c).
Proof.
  induction fuel as [| fuel IH]; intros num p c; cbn [walk].
  - apply keeps_if; [| apply keeps_ret]. intros s _. exact I.
  - apply keeps_if; [| apply keeps_ret].
    apply keeps_bind; [apply keeps_iteration |].
    intros [p' c']. apply IH.
Qed.

Lemma keeps_begin_record f : keeps_carry (begin_record st0 dur0 f).
Proof.
  unfold begin_record. keeps.
  destruct (contents f) as [content |]; keeps.
  destruct (parse_start_time _ _ _ _) as [r1 st].
  destruct (parse_duration _ _ _ _) as [r2 dur].
  keeps.
Qed.

Lemma keeps_decode_files files :
  forall c, keeps_carry (decode_files iconv_open iconv st0 dur0 files c).
Proof.
  induction files as [| f rest IH]; intros c; cbn [decode_files].
  - apply keeps_ret.
  - apply keeps_bind; [| intros c'; apply IH].
    unfold decode_file.
    apply keeps_bind; [apply keeps_begin_record |]. intros [num p].
    apply keeps_bind; [apply keeps_walk |]. intros [p' c'].
    keeps.
Qed.

(** However a run of [main] ends, the carry-over it leaves holds no
    zero byte and only bytes, if the one it started from did; so the
    length [strlen] finds for it is the number of bytes kept. *)
Theorem main_keeps_carry files s :
  carry_ok s -> outcome_ok (main iconv_open iconv st0 dur0 files s).
Proof.
  revert s. change (keeps_carry (main iconv_open iconv st0 dur0 files)).
  unfold main. destruct files as [| f rest]; [keeps |].
  keeps. apply keeps_decode_files.
Qed.

(** ** The descriptor loop, further *)

(** A component descriptor is skipped in silence: the pass returns
    with the cursor 2 + declared length further, also for a declared
    length below 6, and the counter and the whole state are as
    before. *)
Theorem component_skipped num p c s :
  0 <= p < 2 ^ 32 -> load (buf s) p = COMPONENT_DESCRIPTOR ->
  iteration iconv_open iconv num p c s
    = Returned (p + 2 + load (buf s) (p + 1), c) s.
Proof.
  intros Hp Htag. unfold iteration. repeat run_step. rewrite Htag.
  cbn [Z.eqb SHORT_EVENT_DESCRIPTOR EXTENDED_EVENT_DESCRIPTOR
       COMPONENT_DESCRIPTOR Pos.eqb].
  unfold component. pose proof (load_range (buf s) (p + 1)).
  rewrite component_cursor by lia. reflexivity.
Qed.

(** The text of a field that is not a continuation does not depend
    on the carry-over. *)
Lemma text_of_no_carry m carry p len :
  text_of iconv m carry p len false = text_of iconv m None p len false.
Proof.
  unfold text_of.
  set (s1 := mk_state [] [] carry m). set (s2 := mk_state [] [] None m).
  destruct (get_code_table p len s1) as [[inc ct] s1' | | |] eqn:E1.
  - destruct (get_code_table_Returned _ _ _ _ _ _ E1) as (-> & _).
    rewrite (get_code_table_buf p len s1 s2 (inc, ct) eq_refl E1).
    reflexivity.
  - destruct (get_code_table p len s2) as [[inc ct] s2' | | |] eqn:E2;
      try reflexivity.
    destruct (get_code_table_Returned _ _ _ _ _ _ E2) as (-> & _).
    rewrite (get_code_table_buf p len s2 s1 (inc, ct) eq_refl E2) in E1.
    discriminate.
  - destruct (get_code_table p len s2) as [[inc ct] s2' | | |] eqn:E2;
      try reflexivity.
    destruct (get_code_table_Returned _ _ _ _ _ _ E2) as (-> & _).
    rewrite (get_code_table_buf p len s2 s1 (inc, ct) eq_refl E2) in E1.
    discriminate.
  - destruct (get_code_table p len s2) as [[inc ct] s2' | | |] eqn:E2;
      try reflexivity.
    destruct (get_code_table_Returned _ _ _ _ _ _ E2) as (-> & _).
    rewrite (get_code_table_buf p len s2 s1 (inc, ct) eq_refl E2) in E1.
    discriminate.
Qed.

(** What a pass prints for a short event descriptor: the numbered
    key, the three language bytes as they are, the name and the text,
    each decoded from its own field whatever the carry-over holds,
    and the closing of the block. *)
Theorem short_event_output num p c s p' c' s' :
  load (buf s) p = SHORT_EVENT_DESCRIPTOR ->
  iteration iconv_open iconv num p c s = Returned (p', c') s' ->
  let m := buf s in
  let event_name_length := load m (p + 5) in
  let text_length := load m (p + 6 + event_name_length) in
  stdout s' =
    stdout s
    ++ short_event_key (c + 1)
    ++ lit "    'iso_639_2_language_code': '"
    ++ [load m (p + 2); load m (p + 3); load m (p + 4)] ++ lit "',\n"
    ++ lit "    'event_name': '"
    ++ text_of iconv m None (p + 6) event_name_length false ++ lit "',\n"
    ++ lit "    'text': '"
    ++ text_of iconv m None (p + 7 + event_name_length) text_length false
    ++ block_end.
Proof.
  intros Htag H. cbv zeta.
  unfold iteration in H. repeat run_step_in H.
  rewrite Htag, Z.eqb_refl in H.
  unfold short_event in H. repeat run_step_in H.
  apply bind_Returned in H as ([] & s1 & Hd1 & H).
  pose proof (dump_text_false_buf _ _ _ _ _ _ Hd1) as Hb1.
  apply dump_text_Returned in Hd1. repeat run_step_in H.
  apply bind_Returned in H as ([] & s2 & Hd2 & H).
  apply dump_text_Returned in Hd2. repeat run_step_in H.
  apply Returned_pair_inj in H as (_ & _ & <-).
  cbn [stdout add_stdout buf bytes_left] in Hd1, Hd2, Hb1 |- *.
  rewrite Hd2, Hd1, Hb1.
  rewrite (text_of_no_carry (buf s) (bytes_left s)).
  rewrite (text_of_no_carry (buf s) (bytes_left s1)).
  unfold short_event_key, block_end.
  replace (p + 2 + 1) with (p + 3) by lia.
  replace (p + 2 + 2) with (p + 4) by lia.
  replace (p + 2 + 3) with (p + 5) by lia.
  replace (p + 5 + 1) with (p + 6) by lia.
  replace (p + 6 + load (buf s) (p + 5) + 1)
    with (p + 7 + load (buf s) (p + 5)) by lia.
  rewrite <- !app_assoc. reflexivity.
Qed.

(** When the loop returns, the cursor is at the end of the bytes
    read or past it, by 516 bytes at most (a last short event with
    two texts of 255 bytes); the counter has not gone down. *)
Theorem walk_end fuel :
  forall num p c s p' c' s',
    0 <= p < num -> num <= 2 ^ 31 ->
    walk iconv_open iconv fuel num p c s = Returned (p', c') s' ->
    num <= p' <= num + 516 /\ c <= c'.
Proof.
  induction fuel as [| fuel IH]; intros num p c s p' c' s' Hp Hnum H;
    cbn [walk] in H.
  - destruct (Z.ltb_spec p num); [discriminate | lia].
  - destruct (Z.ltb_spec p num); [| lia].
    apply bind_Returned in H as ([p1 c1] & s1 & Hit & H).
    assert (Hp32 : 0 <= p < 2 ^ 32) by lia.
    pose proof (iteration_Returned iconv_open iconv num p c s p1 c1 s1
                  Hp32 Hit) as Hadv.
    cbv zeta in Hadv.
    pose proof (load_range (buf s) (p + 1)).
    pose proof (load_range (buf s) (p + 5)).
    pose proof (load_range (buf s) (p + 7)).
    pose proof (load_range (buf s) (p + 6 + load (buf s) (p + 5))).
    assert (Hstep : p + 2 <= p1 <= p + 517 /\ c <= c1) by intuition lia.
    destruct (Z.lt_ge_cases p1 num) as [Hlt | Hge].
    + specialize (IH num p1 c1 s1 p' c' s' ltac:(lia) Hnum H). lia.
    + destruct fuel; cbn [walk] in H;
        (destruct (Z.ltb_spec p1 num); [lia |]);
        apply Returned_pair_inj in H as (<- & <- & _); lia.
Qed.

(** ** Files and [main] *)

Lemma parse_start_time_fst m p len s :
  fst (parse_start_time m p len s) = if len <? 5 then 0 else 5.
Proof.
  unfold parse_start_time. destruct (len <? 5); [reflexivity |].
  now destruct (parse_duration _ _ _ _).
Qed.

Lemma parse_duration_fst m p len s :
  fst (parse_duration m p len s) = if len <? 3 then 0 else 3.
Proof. unfold parse_duration. now destruct (len <? 3). Qed.

(** The cursor at the first descriptor depends on the number of
    bytes read alone.  It is 12 for 10 bytes or more.  A shorter
    record leaves the start time or the duration unparsed and the
    cursor earlier; a record of 0 or 1 bytes makes the lengths passed
    to the two parsers wrap around, so both parse what the buffer
    held before and the cursor is 12 again. *)
Theorem begin_record_cursor f s num p s' :
  begin_record st0 dur0 f s = Returned (num, p) s' ->
  exists content,
    contents f = Some content
    /\ num = Z.of_nat (length content) /\ num < BUF_SIZE
    /\ p = header_cursor num
    /\ buf s' = fread (buf s) content num.
Proof.
  unfold begin_record. intros H. repeat run_step_in H.
  destruct (contents f) as [content |]; repeat run_step_in H;
    [| discriminate].
  exists content.
  destruct (Z.eqb_spec (Z.min BUF_SIZE (Z.of_nat (length content))) BUF_SIZE)
    as [| Hnum]; repeat run_step_in H; [discriminate |].
  assert (Hn : Z.min BUF_SIZE (Z.of_nat (length content))
               = Z.of_nat (length content)) by lia.
  rewrite Hn in *.
  set (n := Z.of_nat (length content)) in *.
  assert (Hn0 : 0 <= n < 2000) by (unfold n, BUF_SIZE in *; lia).
  match type of H with
  | context [parse_start_time ?m ?a ?l ?x] =>
      pose proof (parse_start_time_fst m a l x) as E1;
      destruct (parse_start_time m a l x) as [r1 st]
  end.
  match type of H with
  | context [parse_duration ?m ?a ?l ?x] =>
      pose proof (parse_duration_fst m a l x) as E2;
      destruct (parse_duration m a l x) as [r2 dur]
  end.
  repeat run_step_in H. apply Returned_pair_inj in H as (<- & <- & <-).
  cbn [fst] in E1, E2.
  assert (W : forall k, 0 <= k <= 12 ->
                size_t_wrap (n - k) = if n <? k then 2 ^ 64 + (n - k) else n - k).
  { intros k Hk. unfold size_t_wrap.
    destruct (Z.ltb_spec n k).
    - rewrite <- (Z.mod_add (n - k) 1 (2 ^ 64)) by lia.
      rewrite Z.mod_small by lia. lia.
    - apply Z.mod_small. lia. }
  assert (Hr1 : r1 = if (n <? 2) || (7 <=? n) then 5 else 0).
  { rewrite E1, (W (0 + 2)) by lia.
    destruct (Z.ltb_spec n (0 + 2)), (Z.ltb_spec n 2), (Z.leb_spec 7 n);
      try lia; cbn [orb];
      match goal with |- context [?a <? 5] => destruct (Z.ltb_spec a 5) end;
      lia. }
  assert (Hp : 0 + 2 + r1 + r2 + 2 = header_cursor n).
  { unfold header_cursor. rewrite E2, Hr1.
    destruct (Z.ltb_spec n 2), (Z.leb_spec 7 n), (Z.leb_spec 10 n),
      (Z.leb_spec 5 n); try lia; cbn [orb];
      match goal with
      | |- context [size_t_wrap (n - ?k)] => rewrite (W k) by lia
      end;
      match goal with |- context [n <? ?k] => destruct (Z.ltb_spec n k) end;
      try lia;
      match goal with |- context [?a <? 3] => destruct (Z.ltb_spec a 3) end;
      lia. }
  repeat split; try reflexivity; [unfold BUF_SIZE; lia | exact Hp].
Qed.

(** A file that cannot be opened ends the process once its name is
    printed.  A file of 2000 bytes or more ends it too: its first
    2000 bytes are read into the buffer and nothing of it is
    decoded. *)
Theorem decode_file_rejects more f c s :
  (contents f = None ->
   decode_file iconv_open iconv st0 dur0 more f c s
     = Exited (-1)
         (add_stderr
            (add_stdout
               (add_stdout
                  (add_stdout (add_stdout s (lit " {\n"))
                     (lit "  'filename': '"))
                  (bytes_of_string (fn f)))
               (lit "',\n"))
            (DiagOpenFailed (fn f))))
  /\ (forall content,
        contents f = Some content ->
        BUF_SIZE <= Z.of_nat (length content) ->
        exists s',
          decode_file iconv_open iconv st0 dur0 more f c s = Exited (-1) s'
          /\ stderr s' = stderr s ++ [DiagBufferTooSmall]
          /\ buf s' = fread (buf s) content BUF_SIZE).
Proof.
  split.
  - intros Hf. unfold decode_file, begin_record.
    repeat run_step. rewrite Hf. repeat run_step. reflexivity.
  - intros content Hf Hlen. unfold decode_file, begin_record.
    repeat run_step. rewrite Hf. repeat run_step.
    replace (Z.min BUF_SIZE (Z.of_nat (length content))) with BUF_SIZE by lia.
    rewrite Z.eqb_refl. repeat run_step.
    eexists. repeat split; reflexivity.
Qed.

(** Without a file argument [main] ends the process with one
    diagnostic and prints nothing; and whenever [main] returns, it
    had at least one file and returns 0. *)
Theorem main_results files s :
  (files = [] ->
   main iconv_open iconv st0 dur0 files s
     = Exited (-1) (add_stderr s DiagNoInput))
  /\ (forall r s',
        main iconv_open iconv st0 dur0 files s = Returned r s' ->
        r = 0 /\ files <> []).
Proof.
  split.
  - intros ->. reflexivity.
  - intros r s' H. destruct files as [| f rest]; [discriminate |].
    split; [| discriminate].
    unfold main in H.
    destruct (1 <? Z.of_nat (length (f :: rest))); repeat run_step_in H;
      apply bind_Returned in H as (c1 & s1 & _ & H);
      repeat run_step_in H; now injection H as <- _.
Qed.

End Decoder_more.

(** ** The further properties on concrete records *)

Lemma dump_text_failures_witness :
  dump_text ref_iconv_open ref_iconv 0 2 false (record_state [1; 65])
    = Exited (-1) (add_stderr (record_state [1; 65]) DiagIconvOpenFailed).
Proof.
  apply (proj1 (dump_text_failures ref_iconv_open ref_iconv 0 2 false
                  (record_state [1; 65]) 1 "ISO-8859-5" eq_refl)).
  reflexivity.
Defined.

Lemma dump_text_carry_witness :
  let s := record_state first_fragment in
  let input := conversion_input s (20 + 1) (size_t_wrap (2 - 1)) false in
  let r := ref_iconv tocode "ISO-10646/UTF8" input 2048 in
  dump_text ref_iconv_open ref_iconv 20 2 false s
    = Returned tt
        (mk_state (stdout s ++ escaped (ic_output r ++ [0])) (stderr s)
           (Some (c_string (skipn (ic_consumed r) input)))
           (snd (conversion_buffer s (20 + 1) false))).
Proof.
  apply (proj2 (dump_text_carry ref_iconv_open ref_iconv 20 2 false
                  (record_state first_fragment) 1 "ISO-10646/UTF8"
                  eq_refl eq_refl)).
  vm_compute. reflexivity.
Defined.

Lemma main_keeps_carry_witness :
  outcome_ok (run_main [eit "a.eit" first_fragment]).
Proof.
  apply (main_keeps_carry ref_iconv_open ref_iconv unset_start_time
           unset_duration [eit "a.eit" first_fragment] initial_state).
  exact I.
Defined.

Lemma continuation_input_witness :
  let s := mk_state [] [] (Some [195])
             (fread zero_memory split_record (Z.of_nat (length split_record))) in
  conversion_input s 31 2 true
    = firstn (Z.to_nat 2) ([195] ++ load_bytes (buf s) 31 (Z.to_nat 2)).
Proof.
  apply (continuation_input
           (mk_state [] [] (Some [195])
              (fread zero_memory split_record
                 (Z.of_nat (length split_record)))) 31 2 [195]).
  - reflexivity.
  - repeat constructor; lia.
Defined.

Lemma component_skipped_witness :
  iteration ref_iconv_open ref_iconv 21 12 0 (record_state component_record)
    = Returned (12 + 2 + load (buf (record_state component_record)) (12 + 1), 0)
        (record_state component_record).
Proof.
  apply (component_skipped ref_iconv_open ref_iconv 21 12 0
           (record_state component_record)).
  - lia.
  - reflexivity.
Defined.

Lemma short_event_output_witness :
  let s := record_state short_record in
  let s' := state_after (run_iteration short_record 0) in
  let m := buf s in
  let event_name_length := load m (12 + 5) in
  let text_length := load m (12 + 6 + event_name_length) in
  stdout s' =
    stdout s
    ++ short_event_key (0 + 1)
    ++ lit "    'iso_639_2_language_code': '"
    ++ [load m (12 + 2); load m (12 + 3); load m (12 + 4)] ++ lit "',\n"
    ++ lit "    'event_name': '"
    ++ text_of ref_iconv m None (12 + 6) event_name_length false ++ lit "',\n"
    ++ lit "    'text': '"
    ++ text_of ref_iconv m None (12 + 7 + event_name_length) text_length false
    ++ block_end.
Proof.
  apply (short_event_output ref_iconv_open ref_iconv 23 12 0
           (record_state short_record) 23 1
           (state_after (run_iteration short_record 0))).
  - reflexivity.
  - vm_compute. reflexivity.
Defined.

Lemma walk_end_witness : 23 <= 23 <= 23 + 516 /\ 0 <= 1.
Proof.
  apply (walk_end ref_iconv_open ref_iconv 23 23 12 0
           (record_state short_record) 23 1
           (state_after
              (walk ref_iconv_open ref_iconv 23 23 12 0
                 (record_state short_record)))).
  - lia.
  - lia.
  - vm_compute. reflexivity.
Defined.

Lemma begin_record_cursor_witness :
  let f := eit "a.eit" [18; 52; 192; 121; 18; 69; 0; 1] in
  let s' := state_after (begin_record unset_start_time unset_duration f
                           initial_state) in
  exists content,
    contents f = Some content
    /\ 8 = Z.of_nat (length content) /\ 8 < BUF_SIZE
    /\ 9 = header_cursor 8
    /\ buf s' = fread (buf initial_state) content 8.
Proof.
  apply (begin_record_cursor unset_start_time unset_duration
           (eit "a.eit" [18; 52; 192; 121; 18; 69; 0; 1]) initial_state 8 9).
  vm_compute. reflexivity.
Defined.

Lemma decode_file_rejects_witness :
  decode_file ref_iconv_open ref_iconv unset_start_time unset_duration false
    (mk_input_file "none.eit" None) 0 initial_state
  = Exited (-1)
      (add_stderr
         (add_stdout
            (add_stdout
               (add_stdout (add_stdout initial_state (lit " {\n"))
                  (lit "  'filename': '"))
               (bytes_of_string "none.eit"))
            (lit "',\n"))
         (DiagOpenFailed "none.eit")).
Proof.
  apply (proj1 (decode_file_rejects ref_iconv_open ref_iconv unset_start_time
                  unset_duration false (mk_input_file "none.eit" None) 0
                  initial_state)).
  reflexivity.
Defined.

Lemma main_results_witness :
  main ref_iconv_open ref_iconv unset_start_time unset_duration []
    initial_state
  = Exited (-1) (add_stderr initial_state DiagNoInput).
Proof.
  apply (proj1 (main_results ref_iconv_open ref_iconv unset_start_time
                  unset_duration [] initial_state)).
  reflexivity.
Defined.
